(** * headgait: event matching and error metrics (utils_/functions_.py)

    A shallow embedding of [compare_events], [MetricsGaitEvents] and
    [modelEvaluate].  NumPy integer arrays are lists of [Z]; the sample
    indices and pointers the functions handle are far inside the int64
    range, so no wrap-around is written out.  NumPy raises on an empty
    [argmin], on an index out of bounds and on shapes that do not broadcast:
    those paths are kept, as an error monad. *)

From Stdlib Require Import ZArith List Bool Lia Sorted.
Import ListNotations.
Local Open Scope Z_scope.

(** ** Exceptions *)

Inductive exn : Set := ValueError | IndexError.

Inductive result (A : Type) : Type :=
| Ok : A -> result A
| Raise : exn -> result A.
Arguments Ok {A} _.
Arguments Raise {A} _.

Definition bind {A B : Type} (m : result A) (f : A -> result B) : result B :=
  match m with
  | Ok a => f a
  | Raise e => Raise e
  end.

Notation "x <- m ;; k" := (bind m (fun x => k))
  (at level 61, m at next level, right associativity).
Notation "' pat <- m ;; k" := (bind m (fun x => match x with pat => k end))
  (at level 61, pat pattern, m at next level, right associativity).

Fixpoint mapM {A B : Type} (f : A -> result B) (l : list A) : result (list B) :=
  match l with
  | [] => Ok []
  | x :: r => y <- f x ;; ys <- mapM f r ;; Ok (y :: ys)
  end.

Fixpoint foldM {A S : Type} (f : S -> A -> result S) (l : list A) (s : S) : result S :=
  match l with
  | [] => Ok s
  | x :: r => s' <- f s x ;; foldM f r s'
  end.

Definition len {A : Type} (l : list A) : Z := Z.of_nat (length l).

(** ** The NumPy operations the source uses *)

Module Np.

(** An integer subscript: negative values count from the end. *)
Definition norm_index (n i : Z) : result nat :=
  if (0 <=? i) && (i <? n) then Ok (Z.to_nat i)
  else if (- n <=? i) && (i <? 0) then Ok (Z.to_nat (n + i))
  else Raise IndexError.

(** [l[i]] *)
Definition item {A : Type} (l : list A) (i : Z) : result A :=
  k <- norm_index (len l) i ;;
  match nth_error l k with
  | Some v => Ok v
  | None => Raise IndexError
  end.

(** [l[idxs]] for an integer array [idxs] *)
Definition take {A : Type} (l : list A) (idxs : list Z) : result (list A) :=
  mapM (item l) idxs.

Fixpoint update {A : Type} (l : list A) (k : nat) (v : A) : list A :=
  match l, k with
  | [], _ => []
  | _ :: r, O => v :: r
  | x :: r, S k' => x :: update r k' v
  end.

(** [l[i] = v] *)
Definition setitem {A : Type} (l : list A) (i : Z) (v : A) : result (list A) :=
  k <- norm_index (len l) i ;;
  Ok (update l k v).

(** [l[idxs] = v] for an integer array [idxs] and a scalar [v] *)
Fixpoint put {A : Type} (l : list A) (idxs : list Z) (v : A) : result (list A) :=
  match idxs with
  | [] => Ok l
  | i :: r => l' <- setitem l i v ;; put l' r v
  end.

Fixpoint put_each {A : Type} (l : list A) (idxs : list Z) (vals : list A)
  : result (list A) :=
  match idxs, vals with
  | i :: r, v :: vs => l' <- setitem l i v ;; put_each l' r vs
  | _, _ => Ok l
  end.

(** [l[idxs] = vals]: [vals] has the shape of [idxs], or one element that is
    broadcast; any other shape is a ValueError. *)
Definition put_array {A : Type} (l : list A) (idxs : list Z) (vals : list A)
  : result (list A) :=
  if Nat.eqb (length vals) (length idxs) then put_each l idxs vals
  else match vals with
       | [v] => put l idxs v
       | _ => Raise ValueError
       end.

Fixpoint argwhere_from (k : Z) (m : list bool) : list Z :=
  match m with
  | [] => []
  | b :: r => if b then k :: argwhere_from (k + 1) r else argwhere_from (k + 1) r
  end.

(** [np.argwhere(m)[:,0]] *)
Definition argwhere (m : list bool) : list Z := argwhere_from 0 m.

Fixpoint compress {A : Type} (l : list A) (m : list bool) : list A :=
  match l, m with
  | x :: l', b :: m' => if b then x :: compress l' m' else compress l' m'
  | _, _ => []
  end.

(** [l[m]] for a boolean array [m] *)
Definition mask {A : Type} (l : list A) (m : list bool) : result (list A) :=
  if Nat.eqb (length l) (length m) then Ok (compress l m) else Raise IndexError.

Fixpoint insert_unique (x : Z) (l : list Z) : list Z :=
  match l with
  | [] => [x]
  | y :: r =>
      if x <? y then x :: l
      else if x =? y then l
      else y :: insert_unique x r
  end.

(** [np.unique(l)]: the distinct values, ascending *)
Definition unique (l : list Z) : list Z := fold_right insert_unique [] l.

(** [np.setdiff1d(ar1, ar2)] *)
Definition setdiff1d (ar1 ar2 : list Z) : list Z :=
  unique (filter (fun x => negb (existsb (Z.eqb x) ar2)) ar1).

Fixpoint argmin_aux (best besti k : Z) (l : list Z) : Z :=
  match l with
  | [] => besti
  | x :: r =>
      if x <? best then argmin_aux x k (k + 1) r
      else argmin_aux best besti (k + 1) r
  end.

(** [np.argmin(l)]: the first position of the least value *)
Definition argmin (l : list Z) : result Z :=
  match l with
  | [] => Raise ValueError
  | x :: r => Ok (argmin_aux x 0 1 r)
  end.

Fixpoint zip_sub (xs ys : list Z) : list Z :=
  match xs, ys with
  | x :: xs', y :: ys' => (x - y) :: zip_sub xs' ys'
  | _, _ => []
  end.

(** [xs - ys] on one-dimensional arrays, with broadcasting *)
Definition sub (xs ys : list Z) : result (list Z) :=
  if Nat.eqb (length xs) (length ys) then Ok (zip_sub xs ys)
  else match xs, ys with
       | [x], _ => Ok (map (fun y => x - y) ys)
       | _, [y] => Ok (map (fun x => x - y) xs)
       | _, _ => Raise ValueError
       end.

(** [np.full_like(l, v)] and [np.array([v for _ in range(len(l))])] *)
Definition full_like {A : Type} (l : list A) (v : Z) : list Z :=
  repeat v (length l).

End Np.

(** ** compare_events *)

Definition UNMATCHED : Z := -999.

(** [ptr > -999], [ptr == -999], [ptr != -999] *)
Definition gt_unmatched (ptr : list Z) : list bool := map (fun v => UNMATCHED <? v) ptr.
Definition eq_unmatched (ptr : list Z) : list bool := map (fun v => v =? UNMATCHED) ptr.
Definition ne_unmatched (ptr : list Z) : list bool := map (fun v => negb (v =? UNMATCHED)) ptr.

(** Lines 114-122: every event of [src] points to the nearest event of [dst]. *)
Definition nearest (src dst : list Z) : result (list Z) :=
  mapM (fun e => Np.argmin (map (fun d => Z.abs (d - e)) dst)) src.

(** One iteration of the loops of lines 127-132 and 135-138. *)
Definition resolve_step (other ptr : list Z) (u : Z) : result (list Z) :=
  let indices := Np.argwhere (map (fun v => v =? u) ptr) in
  if 1 <? len indices then
    back <- Np.item other u ;;
    Np.put ptr (Np.setdiff1d indices [back]) UNMATCHED
  else Ok ptr.

Definition resolve (ptr other : list Z) : result (list Z) :=
  foldM (resolve_step other) (Np.unique ptr) ptr.

(** Lines 144, 147 and 150:
    [ptr[idxs[np.argwhere(other[ptr[idxs]] == -999)[:,0]]] = -999]. *)
Definition prune (ptr other idxs : list Z) : result (list Z) :=
  targets <- Np.take ptr idxs ;;
  back <- Np.take other targets ;;
  sel <- Np.take idxs (Np.argwhere (eq_unmatched back)) ;;
  Np.put ptr sel UNMATCHED.

(** Lines 114-150: the pointers before the threshold is applied. *)
Definition candidates (annotated predicted : list Z) : result (list Z * list Z) :=
  a2b <- nearest annotated predicted ;;
  b2a <- nearest predicted annotated ;;
  a2b <- resolve a2b b2a ;;
  b2a <- resolve b2a a2b ;;
  let indices_a2b := Np.argwhere (gt_unmatched a2b) in
  let indices_b2a := Np.argwhere (gt_unmatched b2a) in
  a2b <- prune a2b b2a indices_a2b ;;
  b2a <- prune b2a a2b indices_b2a ;;
  let indices_a2b := Np.argwhere (gt_unmatched a2b) in
  a2b <- prune a2b b2a indices_a2b ;;
  Ok (a2b, b2a).

(** Lines 153 and 164. *)
Definition time_differences (annotated predicted a2b b2a : list Z) : result (list Z) :=
  ps <- Np.mask predicted (gt_unmatched b2a) ;;
  gs <- Np.mask annotated (gt_unmatched a2b) ;;
  Np.sub ps gs.

(** The body of the loop of lines 158-161. *)
Definition reject_step (thr : Z) (time_diff indices_a2b indices_b2a : list Z)
  (st : list Z * list Z) (ti : nat) : result (list Z * list Z) :=
  let '(a2b, b2a) := st in
  d <- Np.item time_diff (Z.of_nat ti) ;;
  if thr <? Z.abs d then
    j <- Np.item indices_b2a (Z.of_nat ti) ;;
    a2b <- Np.setitem a2b j UNMATCHED ;;
    i <- Np.item indices_a2b (Z.of_nat ti) ;;
    b2a <- Np.setitem b2a i UNMATCHED ;;
    Ok (a2b, b2a)
  else Ok (a2b, b2a).

(** Lines 153-161: [ti] runs from [len(time_diff)-1] down to 0. *)
Definition reject (annotated predicted : list Z) (thr : Z) (a2b b2a : list Z)
  : result (list Z * list Z) :=
  time_diff <- time_differences annotated predicted a2b b2a ;;
  indices_a2b <- Np.mask a2b (gt_unmatched a2b) ;;
  indices_b2a <- Np.mask b2a (gt_unmatched b2a) ;;
  foldM (reject_step thr time_diff indices_a2b indices_b2a)
        (rev (seq 0 (length time_diff))) (a2b, b2a).

Definition compare_events (annotated predicted : list Z) (thr : Z)
  : result (list Z * list Z * list Z) :=
  if (len annotated =? 0) && (len predicted =? 0) then
    Ok ([], [], [])
  else if negb (len annotated =? 0) && (len predicted =? 0) then
    Ok (Np.full_like annotated UNMATCHED, [], Np.full_like annotated UNMATCHED)
  else if (len annotated =? 0) && negb (len predicted =? 0) then
    Ok ([], Np.full_like predicted UNMATCHED, Np.full_like predicted UNMATCHED)
  else
    '(a2b, b2a) <- candidates annotated predicted ;;
    '(a2b, b2a) <- reject annotated predicted thr a2b b2a ;;
    time_diff <- time_differences annotated predicted a2b b2a ;;
    Ok (a2b, b2a, time_diff).

(** ** MetricsGaitEvents *)

Definition MetricsGaitEvents
  (ipksGS_ ipksDUT_ targets_2_predictions predictions_2_targets : list Z)
  : result (Z * Z * list Z) :=
  missed <- Np.mask targets_2_predictions (eq_unmatched targets_2_predictions) ;;
  extra <- Np.mask predictions_2_targets (eq_unmatched predictions_2_targets) ;;
  let predicted_aligned := Np.full_like ipksGS_ UNMATCHED in
  let matched_events := Np.argwhere (ne_unmatched targets_2_predictions) in
  vals <- Np.mask ipksDUT_ (ne_unmatched predictions_2_targets) ;;
  predicted_aligned <- Np.put_array predicted_aligned matched_events vals ;;
  Ok (len missed, len extra, predicted_aligned).

(** ** modelEvaluate *)

(** [nan] is [None]: the aligned predictions are cast to float only to hold it. *)
Definition to_nan (v : Z) : option Z :=
  if v =? UNMATCHED then None else Some v.

Record accumulator : Type := mkAcc {
  missedEvents : Z;
  extraEvents : Z;
  GSevents : Z;
  Differences : list Z;
  ipksDUT : list (option Z);
  ipksGS : list Z
}.

Definition empty_accumulator : accumulator := mkAcc 0 0 0 [] [] [].

Section ModelEvaluate.

(** A sample of the network's output curve and a sample of the target curve. *)
Variables prob label : Type.
(** [find_peaks(., height=min_height, prominence=min_prominence,
    distance=min_distance)], first component. *)
Variable find_peaks : list prob -> list Z.
(** [. >= min_height] and [. == 1]. *)
Variable ge_min_height : prob -> bool.
Variable is_event : label -> bool.

(** [preds.shape[1]]: the rows of an array have one length. *)
Definition shape1 (preds : list (list prob)) : Z :=
  match preds with
  | [] => 0
  | w :: _ => len w
  end.

(** Lines 269-275: the predicted events of one window. *)
Definition detect (predLabel : list prob) : result (list Z) :=
  let ipksDUT_ := find_peaks predLabel in
  first <- Np.item predLabel 0 ;;
  let ipksDUT_ := if ge_min_height first then [0] ++ ipksDUT_ else ipksDUT_ in
  last <- Np.item predLabel (-1) ;;
  let ipksDUT_ :=
    if ge_min_height last then ipksDUT_ ++ [len predLabel - 1] else ipksDUT_ in
  Ok ipksDUT_.

(** Line 277 *)
Definition targets (targetLabel : list label) : list Z :=
  Np.argwhere (map is_event targetLabel).

(** The body of the loop of lines 241-299. *)
Definition window_step (L : Z) (t : list (list label)) (acc : accumulator)
  (iw : nat * list prob) : result accumulator :=
  let '(i, predLabel) := iw in
  let s := Z.of_nat i * L in
  targetLabel <- Np.item t (Z.of_nat i) ;;
  ipksDUT_ <- detect predLabel ;;
  let ipksGS_ := targets targetLabel in
  '(targets_2_predictions, predictions_2_targets, time_diff) <-
    compare_events ipksGS_ ipksDUT_ 20 ;;
  '(missed, extra, ipksDUT_) <-
    MetricsGaitEvents ipksGS_ ipksDUT_ targets_2_predictions predictions_2_targets ;;
  let ipksDUT_ := map to_nan ipksDUT_ in
  let ipksGS_ := map (fun g => s + g + 1) ipksGS_ in
  let ipksDUT_ := map (option_map (fun d => s + d + 1)) ipksDUT_ in
  Ok (mkAcc (missedEvents acc + missed)
            (extraEvents acc + extra)
            (GSevents acc + len (targets targetLabel))
            (Differences acc ++ time_diff)
            (ipksDUT acc ++ ipksDUT_)
            (ipksGS acc ++ ipksGS_)).

Definition enumerate {A : Type} (l : list A) : list (nat * A) :=
  combine (seq 0 (length l)) l.

(** The loop over the windows of [preds], from the state [acc]. *)
Definition evaluate_from (preds : list (list prob)) (t : list (list label))
  (acc : accumulator) (ws : list (nat * list prob)) : result accumulator :=
  foldM (window_step (shape1 preds) t) ws acc.

Definition modelEvaluate {X : Type} (model : X -> list (list prob)) (x : X)
  (t : list (list label)) : result (Z * Z * list (option Z) * list Z) :=
  let preds := model x in
  acc <- evaluate_from preds t empty_accumulator (enumerate preds) ;;
  Ok (extraEvents acc, missedEvents acc, ipksDUT acc, ipksGS acc).

End ModelEvaluate.

Arguments shape1 {prob} _.
Arguments detect {prob} _ _ _.
Arguments targets {label} _ _.
Arguments window_step {prob label} _ _ _ _ _ _ _.
Arguments evaluate_from {prob label} _ _ _ _ _ _ _.
Arguments modelEvaluate {prob label} _ _ _ {X} _ _ _.

(** ** buildDataSet *)

(** The arrays [buildDataSet] is written for: one window ([np.ndim(DS) == 1])
    or a stack of windows, one per row, the rows having one length. *)
Inductive ndarray (A : Type) : Type :=
| Arr1 (values : list A)
| Arr2 (rows : list (list A)).
Arguments Arr1 {A} _.
Arguments Arr2 {A} _.

Module Nd.

(** The elements of a two-dimensional array of [k] columns in Fortran order:
    column after column. *)
Fixpoint ravel_F {A : Type} (k : nat) (rows : list (list A)) : list A :=
  match k with
  | O => []
  | S k' => flat_map (firstn 1) rows ++ ravel_F k' (map (skipn 1) rows)
  end.

(** [shape[1]] of a two-dimensional array with at least one row. *)
Definition columns {A : Type} (rows : list (list A)) : nat :=
  match rows with
  | [] => O
  | r :: _ => length r
  end.

(** [.reshape((n, T, C), order='F')] on the elements [flat] of the source in
    Fortran order: entry [(b, t, c)] is element [b + n*t + n*T*c]; a source
    of another size is a ValueError. *)
Definition unravel_F3 {A : Type} (flat : list A) (n T C : nat)
  : result (list (list (list A))) :=
  if Nat.eqb (length flat) (n * T * C) then
    mapM (fun b =>
      mapM (fun t =>
        mapM (fun c => Np.item flat (Z.of_nat (b + n * t + n * T * c)))
             (seq 0 C))
        (seq 0 T))
      (seq 0 n)
  else Raise ValueError.

End Nd.

Definition buildDataSet {A : Type} (DS : ndarray A)
  : result (list (list (list A)) * list (list (list A))) :=
  let timesteps := 200%nat in
  let input_dim := 6%nat in
  match DS with
  | Arr1 values =>
      let batch_sizeDS := 1%nat in
      let val_pred := firstn 1200 values in
      let val_target := skipn 1200 values in
      x_val <- Nd.unravel_F3 val_pred batch_sizeDS timesteps input_dim ;;
      y_val <- Nd.unravel_F3 val_target batch_sizeDS timesteps 1 ;;
      Ok (x_val, y_val)
  | Arr2 rows =>
      let batch_sizeDS := length rows in
      let val_pred := map (firstn 1200) rows in
      let val_target := map (skipn 1200) rows in
      x_val <- Nd.unravel_F3 (Nd.ravel_F (Nd.columns val_pred) val_pred)
                 batch_sizeDS timesteps input_dim ;;
      y_val <- Nd.unravel_F3 (Nd.ravel_F (Nd.columns val_target) val_target)
                 batch_sizeDS timesteps 1 ;;
      Ok (x_val, y_val)
  end.

(** Entry [(b, t, c)] of a three-dimensional array. *)
Definition at3 {A : Type} (x : list (list (list A))) (b t c : nat) : option A :=
  match nth_error x b with
  | Some xb => match nth_error xb t with
               | Some xt => nth_error xt c
               | None => None
               end
  | None => None
  end.

(** The rows have [m] entries each. *)
Definition rect {A : Type} (m : nat) (rows : list (list A)) : Prop :=
  Forall (fun r => length r = m) rows.

(** ** _todict, _check_keys, load_mat_struct *)

From Stdlib Require String.
Import String.StringSyntax.
Delimit Scope string_scope with string.
#[local] Set Warnings "-register-all".

(** What [loadmat(..., struct_as_record=False, squeeze_me=True)] delivers: a
    value that is not a struct (a number, a string, a numeric array), an
    array of objects, or a [mat_struct].  A [mat_struct] is its
    [_fieldnames], in order, each with the attribute of that name. *)
Inductive matval : Type :=
| MLeaf (z : Z)
| MArray (items : list matval)
| MObj (s : mat_struct)
with mat_struct : Type :=
| Struct (fields : list (String.string * matval)).

(** A value after conversion: left as it was, or a dict. *)
Inductive pyval : Type :=
| PVal (v : matval)
| PDict (entries : list (String.string * pyval)).

(** [dict[key]] (None: KeyError) and [dict[key] = v] on a dict in insertion
    order. *)
Fixpoint dict_get {V : Type} (dict : list (String.string * V))
  (key : String.string) : option V :=
  match dict with
  | [] => None
  | (k, w) :: r => if String.eqb k key then Some w else dict_get r key
  end.

Fixpoint dict_set {V : Type} (dict : list (String.string * V))
  (key : String.string) (v : V) : list (String.string * V) :=
  match dict with
  | [] => [(key, v)]
  | (k, w) :: r =>
      if String.eqb k key then (k, v) :: r else (k, w) :: dict_set r key v
  end.

Fixpoint _todict (matobj : mat_struct) : list (String.string * pyval) :=
  match matobj with
  | Struct fields =>
      (fix loop (fieldnames : list (String.string * matval))
                (dict : list (String.string * pyval)) :=
         match fieldnames with
         | [] => dict
         | (strg, elem) :: rest =>
             loop rest
                  (dict_set dict strg
                     match elem with
                     | MObj s => PDict (_todict s)
                     | _ => PVal elem
                     end)
         end) fields []
  end.

(** What [_todict] and [_check_keys] store for an element. *)
Definition converted_value (elem : matval) : pyval :=
  match elem with
  | MObj s => PDict (_todict s)
  | _ => PVal elem
  end.

(** One iteration of the loop of [_check_keys]. *)
Definition check_key (dict : list (String.string * pyval)) (key : String.string)
  : list (String.string * pyval) :=
  match dict_get dict key with
  | Some (PVal (MObj s)) => dict_set dict key (PDict (_todict s))
  | _ => dict
  end.

Definition _check_keys (dict : list (String.string * pyval))
  : list (String.string * pyval) :=
  fold_left check_key (map fst dict) dict.

(** [data] is what [loadmat] read from the file; None is the KeyError of
    [...[dataset_name]]. *)
Definition load_mat_struct (data : list (String.string * matval))
  (dataset_name : String.string) : option pyval :=
  dict_get (_check_keys (map (fun kv => (fst kv, PVal (snd kv))) data))
           dataset_name.

(** The attribute [name] of a struct: the last field of that name. *)
Definition attribute (matobj : mat_struct) (name : String.string)
  : option matval :=
  match matobj with
  | Struct fields =>
      fold_left (fun found kv =>
                   if String.eqb (fst kv) name then Some (snd kv) else found)
                fields None
  end.

(** No [mat_struct] is left as a value of the dict, nor of a dict inside
    it. *)
Inductive converted : pyval -> Prop :=
| converted_val (v : matval) :
    (forall s, v <> MObj s) -> converted (PVal v)
| converted_dict (entries : list (String.string * pyval)) :
    Forall (fun kv => converted (snd kv)) entries -> converted (PDict entries).

(** ** Predicates of the statements *)

(** A pointer is the sentinel or an index into an array of [n] entries. *)
Definition ptr_ok (n : Z) (v : Z) : Prop := v = UNMATCHED \/ 0 <= v < n.

(** [new] is [old] with some entries replaced by the sentinel. *)
Definition relaxes (old new : list Z) : Prop :=
  Forall2 (fun o v => v = o \/ v = UNMATCHED) old new.

(** [a2b[i] = j], a pointer that is not the sentinel. *)
Definition points (ptr : list Z) (i j : Z) : Prop :=
  0 <= i /\ nth_error ptr (Z.to_nat i) = Some j /\ j <> UNMATCHED.

(** Every pointer of one side is answered by the pointer of the other side. *)
Definition reciprocal (a2b b2a : list Z) : Prop :=
  (forall i j, points a2b i j -> points b2a j i) /\
  (forall j i, points b2a j i -> points a2b i j).

(** The target events of the windows in [ws], shifted to the timeline of the
    bout, when row [i] of [t] is [tls[i]]. *)
Definition shifted_targets {prob label : Type} (is_event : label -> bool) (L : Z)
  (ws : list (nat * list prob)) (tls : list (list label)) : list Z :=
  concat (map (fun wt : (nat * list prob) * list label =>
                 map (fun g => g + (Z.of_nat (fst (fst wt)) * L + 1))
                     (targets is_event (snd wt)))
              (combine ws tls)).

(** The sample of event [i], and the entry [i] of a pointer array. *)
Definition zn (l : list Z) (i : Z) : Z := nth (Z.to_nat i) l 0.

(** [j] is the first event of [dst] at the least distance from sample [e]. *)
Definition is_nearest (dst : list Z) (e j : Z) : Prop :=
  0 <= j < len dst /\
  (forall k, 0 <= k < j -> Z.abs (zn dst j - e) < Z.abs (zn dst k - e)) /\
  (forall k, 0 <= k < len dst -> Z.abs (zn dst j - e) <= Z.abs (zn dst k - e)).

(** The positions of the pointers of [ptr] that are not the sentinel, and
    their values, both in array order. *)
Definition valid_pos (ptr : list Z) : list Z := Np.argwhere (gt_unmatched ptr).
Definition valid_vals (ptr : list Z) : list Z := Np.compress ptr (gt_unmatched ptr).

(** What the passes of [compare_events] aim at: pointer arrays over
    [annotated] and [predicted] whose surviving pointers are nearest-candidate
    pointers and answer each other. *)
Definition well_matched (annotated predicted a2b b2a : list Z) : Prop :=
  length a2b = length annotated /\
  length b2a = length predicted /\
  (forall i j, points a2b i j -> is_nearest predicted (zn annotated i) j) /\
  (forall j i, points b2a j i -> is_nearest annotated (zn predicted j) i) /\
  reciprocal a2b b2a.

(** The number of sentinel entries of a pointer array. *)
Definition count_unmatched (ptr : list Z) : Z :=
  len (filter (fun v => v =? UNMATCHED) ptr).

(** No two events of one side hold the same pointer. *)
Definition one_to_one (ptr : list Z) : Prop :=
  forall i i' j, points ptr i j -> points ptr i' j -> i = i'.

(** The number of [nan] entries of a timeline. *)
Definition count_nan (l : list (option Z)) : Z :=
  len (filter (fun v => match v with None => true | Some _ => false end) l).

(** ** The inputs of the window-offset scenario *)

(** A target curve of [L] samples with its only event at sample [k]. *)
Definition one_event (L k : nat) : list Z :=
  repeat 0 k ++ [1] ++ repeat 0 (L - k - 1).

Definition scenario_targets : list (list Z) :=
  [one_event 200 10; one_event 200 5].

(** Two windows of 200 samples in which the detector sees nothing: a sample
    is [true] when it reaches the height threshold. *)
Definition silent_preds : list (list bool) :=
  [repeat false 200; repeat false 200].

Definition no_peaks (w : list bool) : list Z := [].

Definition is_one (v : Z) : bool := v =? 1.

(** ** The error monad *)

Lemma bind_Ok_inv {A B : Type} (m : result A) (f : A -> result B) (b : B) :
  bind m f = Ok b -> exists a, m = Ok a /\ f a = Ok b.
Proof.
  destruct m as [a|e]; simpl; intros H; [exists a; auto | discriminate].
Qed.

Ltac inv_bind H :=
  let x := fresh "x" in
  let E := fresh "E" in
  apply bind_Ok_inv in H; destruct H as (x & E & H).

Lemma mapM_Ok_Forall2 {A B : Type} (f : A -> result B) (l : list A) (ys : list B) :
  mapM f l = Ok ys -> Forall2 (fun x y => f x = Ok y) l ys.
Proof.
  revert ys; induction l as [|x r IH]; simpl; intros ys H.
  - injection H as <-. constructor.
  - inv_bind H. inv_bind H. injection H as <-. constructor; auto.
Qed.

Lemma mapM_total {A B : Type} (f : A -> result B) (l : list A) :
  (forall x, In x l -> exists y, f x = Ok y) -> exists ys, mapM f l = Ok ys.
Proof.
  induction l as [|x r IH]; simpl; intros H.
  - eexists; reflexivity.
  - destruct (H x) as [y Hy]; auto.
    destruct IH as [ys Hys]; [intros; apply H; auto|].
    exists (y :: ys). rewrite Hy, Hys. reflexivity.
Qed.

Lemma foldM_inv {A S : Type} (P : S -> Prop) (f : S -> A -> result S) (l : list A) :
  (forall s x s', P s -> In x l -> f s x = Ok s' -> P s') ->
  forall s s', P s -> foldM f l s = Ok s' -> P s'.
Proof.
  induction l as [|x r IH]; simpl; intros Hstep s s' Hs H.
  - injection H as <-. exact Hs.
  - inv_bind H. apply IH with (s := x0); eauto.
Qed.

Lemma foldM_total {A S : Type} (P : S -> Prop) (f : S -> A -> result S) (l : list A) :
  (forall s x, P s -> In x l -> exists s', f s x = Ok s' /\ P s') ->
  forall s, P s -> exists s', foldM f l s = Ok s' /\ P s'.
Proof.
  induction l as [|x r IH]; simpl; intros Hstep s Hs.
  - exists s; auto.
  - destruct (Hstep s x Hs) as (s1 & E & Hs1); auto.
    rewrite E; simpl. apply IH; auto.
Qed.

(** ** Facts about the array operations *)

Lemma norm_index_inrange (n i : Z) :
  0 <= i < n -> Np.norm_index n i = Ok (Z.to_nat i).
Proof.
  intros H. unfold Np.norm_index.
  replace ((0 <=? i) && (i <? n)) with true; auto.
  symmetry; apply andb_true_intro; split; lia.
Qed.

Lemma item_inrange {A : Type} (l : list A) (i : Z) :
  0 <= i < len l ->
  exists v, Np.item l i = Ok v /\ nth_error l (Z.to_nat i) = Some v.
Proof.
  intros H. unfold Np.item. rewrite norm_index_inrange by exact H. simpl.
  destruct (nth_error l (Z.to_nat i)) as [v|] eqn:E.
  - exists v; auto.
  - apply nth_error_None in E. unfold len in H. lia.
Qed.

Lemma item_nonneg {A : Type} (l : list A) (i : Z) (v : A) :
  0 <= i -> Np.item l i = Ok v -> nth_error l (Z.to_nat i) = Some v /\ i < len l.
Proof.
  intros Hi H. unfold Np.item, Np.norm_index in H.
  destruct ((0 <=? i) && (i <? len l)) eqn:E1.
  - simpl in H. apply andb_prop in E1 as [_ E1].
    destruct (nth_error l (Z.to_nat i)); [injection H as <-|discriminate].
    split; [reflexivity | lia].
  - destruct ((- len l <=? i) && (i <? 0)) eqn:E2.
    + apply andb_prop in E2 as [_ E2]. lia.
    + discriminate.
Qed.

Lemma update_length {A : Type} (l : list A) (k : nat) (v : A) :
  length (Np.update l k v) = length l.
Proof.
  revert k; induction l as [|x r IH]; intros [|k]; simpl; auto.
Qed.

Lemma update_nth_error {A : Type} (l : list A) (k j : nat) (v : A) :
  nth_error (Np.update l k v) j =
  if Nat.eqb j k then (if Nat.ltb k (length l) then Some v else None)
  else nth_error l j.
Proof.
  revert k j; induction l as [|x r IH]; intros [|k] [|j]; simpl; auto.
  destruct (Nat.eqb j k); reflexivity.
Qed.

Lemma setitem_length {A : Type} (l l' : list A) (i : Z) (v : A) :
  Np.setitem l i v = Ok l' -> length l' = length l.
Proof.
  unfold Np.setitem; intros H. inv_bind H. injection H as <-.
  apply update_length.
Qed.

Lemma put_length {A : Type} (idxs : list Z) (v : A) (l l' : list A) :
  Np.put l idxs v = Ok l' -> length l' = length l.
Proof.
  revert l; induction idxs as [|i r IH]; simpl; intros l H.
  - injection H as <-. reflexivity.
  - inv_bind H. apply IH in H. apply setitem_length in E. congruence.
Qed.

Lemma put_each_length {A : Type} (idxs : list Z) (vals l l' : list A) :
  Np.put_each l idxs vals = Ok l' -> length l' = length l.
Proof.
  revert vals l; induction idxs as [|i r IH]; intros [|v vs] l H; simpl in H;
    try (injection H as <-; reflexivity).
  inv_bind H. apply IH in H. apply setitem_length in E. congruence.
Qed.

Lemma put_array_length {A : Type} (idxs : list Z) (vals l l' : list A) :
  Np.put_array l idxs vals = Ok l' -> length l' = length l.
Proof.
  unfold Np.put_array.
  destruct (Nat.eqb (length vals) (length idxs)).
  - apply put_each_length.
  - destruct vals as [|v [|? ?]]; try discriminate. apply put_length.
Qed.

Lemma put_total {A : Type} (idxs : list Z) (v : A) (l : list A) :
  Forall (fun i => 0 <= i < len l) idxs -> exists l', Np.put l idxs v = Ok l'.
Proof.
  revert l; induction idxs as [|i r IH]; simpl; intros l H.
  - eexists; reflexivity.
  - inversion H as [|? ? Hi Hr]; subst.
    unfold Np.setitem. rewrite norm_index_inrange by exact Hi. simpl.
    apply IH. unfold len in *. rewrite update_length. exact Hr.
Qed.

Lemma argwhere_from_spec (m : list bool) (k i : Z) :
  In i (Np.argwhere_from k m) ->
  k <= i < k + len m /\ nth_error m (Z.to_nat (i - k)) = Some true.
Proof.
  revert k; induction m as [|b r IH]; simpl; intros k H; [contradiction|].
  assert (Hr : In i (Np.argwhere_from (k + 1) r) ->
               k <= i < k + len (b :: r) /\
               nth_error (b :: r) (Z.to_nat (i - k)) = Some true).
  { intros H'. apply IH in H' as [H1 H2]. unfold len in *. simpl length.
    split; [lia|].
    replace (Z.to_nat (i - k)) with (S (Z.to_nat (i - (k + 1)))) by lia.
    exact H2. }
  destruct b; [destruct H as [<-|H]|]; auto.
  unfold len; simpl length. split; [lia|].
  replace (k - k) with 0 by lia. reflexivity.
Qed.

Lemma argwhere_spec (m : list bool) (i : Z) :
  In i (Np.argwhere m) ->
  0 <= i < len m /\ nth_error m (Z.to_nat i) = Some true.
Proof.
  intros H. apply argwhere_from_spec in H.
  replace (i - 0) with i in H by lia. exact H.
Qed.

Lemma insert_unique_In (x y : Z) (l : list Z) :
  In y (Np.insert_unique x l) -> y = x \/ In y l.
Proof.
  induction l as [|z r IH]; simpl.
  - intros [<-|[]]; auto.
  - destruct (x <? z); [simpl; intuition congruence|].
    destruct (x =? z); [simpl; intuition congruence|].
    simpl. intros [<-|H]; auto. apply IH in H. intuition.
Qed.

Lemma unique_In (y : Z) (l : list Z) : In y (Np.unique l) -> In y l.
Proof.
  induction l as [|x r IH]; simpl; [auto|].
  intros H. apply insert_unique_In in H as [->|H]; auto.
Qed.

Lemma setdiff1d_In (y : Z) (ar1 ar2 : list Z) :
  In y (Np.setdiff1d ar1 ar2) -> In y ar1.
Proof.
  unfold Np.setdiff1d. intros H. apply unique_In in H.
  apply filter_In in H. tauto.
Qed.

Lemma argmin_aux_range (l : list Z) (best besti k : Z) :
  0 <= besti < k -> 0 <= Np.argmin_aux best besti k l < k + len l.
Proof.
  revert best besti k; induction l as [|x r IH]; simpl; intros best besti k H.
  - unfold len; simpl; lia.
  - unfold len; simpl length. destruct (x <? best).
    + specialize (IH x k (k + 1)). unfold len in IH. lia.
    + specialize (IH best besti (k + 1)). unfold len in IH. lia.
Qed.

Lemma argmin_range (l : list Z) (r : Z) :
  Np.argmin l = Ok r -> 0 <= r < len l.
Proof.
  destruct l as [|x l]; simpl; [discriminate|]. intros [= <-].
  pose proof (argmin_aux_range l x 0 1). unfold len in *. simpl length. lia.
Qed.

(** ** Pointer arrays only lose entries *)

Lemma relaxes_refl (l : list Z) : relaxes l l.
Proof. induction l; constructor; [left; reflexivity | assumption]. Qed.

Lemma relaxes_trans (a b c : list Z) : relaxes a b -> relaxes b c -> relaxes a c.
Proof.
  intros Hab; revert c; induction Hab as [|x y a b Hxy Hab IH]; intros c Hbc;
    inversion Hbc as [|y' z b' c' Hyz Hbc']; subst; constructor.
  - destruct Hyz as [->| ->]; auto.
  - apply IH. exact Hbc'.
Qed.

Lemma relaxes_length (a b : list Z) : relaxes a b -> length b = length a.
Proof. intros H. symmetry. exact (Forall2_length H). Qed.

Lemma relaxes_ptr_ok (n : Z) (a b : list Z) :
  relaxes a b -> Forall (ptr_ok n) a -> Forall (ptr_ok n) b.
Proof.
  induction 1 as [|x y a b Hxy Hab IH]; intros Ha; inversion Ha; subst;
    constructor.
  - destruct Hxy as [->| ->]; [assumption | left; reflexivity].
  - apply IH. assumption.
Qed.

Lemma update_relaxes (l : list Z) (k : nat) : relaxes l (Np.update l k UNMATCHED).
Proof.
  revert k; induction l as [|x r IH]; intros [|k]; simpl; try constructor.
  - right; reflexivity.
  - apply relaxes_refl.
  - left; reflexivity.
  - apply IH.
Qed.

Lemma setitem_relaxes (l l' : list Z) (i : Z) :
  Np.setitem l i UNMATCHED = Ok l' -> relaxes l l'.
Proof.
  unfold Np.setitem; intros H. inv_bind H. injection H as <-.
  apply update_relaxes.
Qed.

Lemma put_relaxes (idxs l l' : list Z) :
  Np.put l idxs UNMATCHED = Ok l' -> relaxes l l'.
Proof.
  revert l; induction idxs as [|i r IH]; simpl; intros l H.
  - injection H as <-. apply relaxes_refl.
  - inv_bind H. eapply relaxes_trans; [eapply setitem_relaxes|]; eauto.
Qed.

Lemma resolve_step_relaxes (other ptr ptr' : list Z) (u : Z) :
  resolve_step other ptr u = Ok ptr' -> relaxes ptr ptr'.
Proof.
  unfold resolve_step.
  destruct (1 <? len (Np.argwhere (map (fun v => v =? u) ptr))); intros H.
  - inv_bind H. eapply put_relaxes; eauto.
  - injection H as <-. apply relaxes_refl.
Qed.

Lemma resolve_relaxes (ptr other ptr' : list Z) :
  resolve ptr other = Ok ptr' -> relaxes ptr ptr'.
Proof.
  unfold resolve.
  apply (foldM_inv (relaxes ptr)); [|apply relaxes_refl].
  intros s u s' Hs _ Hstep.
  eapply relaxes_trans; [exact Hs|]. eapply resolve_step_relaxes; eauto.
Qed.

Lemma prune_relaxes (ptr other idxs ptr' : list Z) :
  prune ptr other idxs = Ok ptr' -> relaxes ptr ptr'.
Proof.
  unfold prune; intros H. do 3 inv_bind H. eapply put_relaxes; eauto.
Qed.

Lemma reject_step_relaxes (thr : Z) (td ia ib : list Z) (st st' : list Z * list Z)
  (ti : nat) :
  reject_step thr td ia ib st ti = Ok st' ->
  relaxes (fst st) (fst st') /\ relaxes (snd st) (snd st').
Proof.
  destruct st as [a2b b2a]; unfold reject_step; intros H. inv_bind H.
  destruct (thr <? Z.abs x).
  - do 4 inv_bind H. injection H as <-. simpl.
    split; eapply setitem_relaxes; eauto.
  - injection H as <-. simpl. split; apply relaxes_refl.
Qed.

Lemma reject_relaxes (annotated predicted : list Z) (thr : Z)
  (a2b b2a a2b' b2a' : list Z) :
  reject annotated predicted thr a2b b2a = Ok (a2b', b2a') ->
  relaxes a2b a2b' /\ relaxes b2a b2a'.
Proof.
  unfold reject; intros H. do 3 inv_bind H.
  revert H.
  apply (foldM_inv (fun st => relaxes a2b (fst st) /\ relaxes b2a (snd st))
           (reject_step thr x x0 x1) _); [|simpl; split; apply relaxes_refl].
  intros s ti s' [Ha Hb] _ Hstep.
  apply reject_step_relaxes in Hstep as [Ha' Hb'].
  split; eapply relaxes_trans; eauto.
Qed.

(** ** The nearest-candidate pass *)

Lemma nearest_range (src dst ptr : list Z) :
  nearest src dst = Ok ptr ->
  Forall (fun v => 0 <= v < len dst) ptr /\ length ptr = length src.
Proof.
  unfold nearest; intros H. apply mapM_Ok_Forall2 in H.
  split; [|symmetry; exact (Forall2_length H)].
  induction H as [|e v src ptr Hv _ IH]; constructor; auto.
  apply argmin_range in Hv. unfold len in *. rewrite length_map in Hv. exact Hv.
Qed.

Lemma nearest_total (src dst : list Z) :
  dst <> [] -> exists ptr, nearest src dst = Ok ptr.
Proof.
  intros Hd. apply mapM_total. intros e _.
  destruct dst as [|d dst]; [contradiction|]. simpl. eexists; reflexivity.
Qed.

Lemma in_range_ptr_ok (n : Z) (ptr : list Z) :
  Forall (fun v => 0 <= v < n) ptr -> Forall (ptr_ok n) ptr.
Proof. apply Forall_impl. intros v H. right. exact H. Qed.

(** ** Lines 114-150 never raise on two non-empty arrays *)

Lemma len_map {A B : Type} (f : A -> B) (l : list A) : len (map f l) = len l.
Proof. unfold len. rewrite length_map. reflexivity. Qed.

Lemma resolve_step_total (other ptr : list Z) (u : Z) :
  0 <= u < len other -> exists ptr', resolve_step other ptr u = Ok ptr'.
Proof.
  intros Hu. unfold resolve_step.
  destruct (1 <? len (Np.argwhere (map (fun v => v =? u) ptr)));
    [|eexists; reflexivity].
  destruct (item_inrange other u Hu) as (back & -> & _). simpl.
  apply put_total. apply Forall_forall. intros i Hi.
  apply setdiff1d_In, argwhere_spec in Hi as [Hi _].
  rewrite len_map in Hi. exact Hi.
Qed.

Lemma resolve_total (ptr other : list Z) :
  Forall (fun v => 0 <= v < len other) ptr -> exists ptr', resolve ptr other = Ok ptr'.
Proof.
  intros Hptr. unfold resolve.
  destruct (foldM_total (fun _ => True) (resolve_step other) (Np.unique ptr))
    with (s := ptr) as (ptr' & E & _); auto; [|exists ptr'; exact E].
  intros s u _ Hu. apply unique_In in Hu.
  rewrite Forall_forall in Hptr.
  destruct (resolve_step_total other s u (Hptr u Hu)) as [s' E]. eauto.
Qed.

Lemma take_total {A : Type} (l : list A) (idxs : list Z) :
  Forall (fun i => 0 <= i < len l) idxs -> exists vs, Np.take l idxs = Ok vs.
Proof.
  intros H. apply mapM_total. intros i Hi. rewrite Forall_forall in H.
  destruct (item_inrange l i (H i Hi)) as (v & E & _). eauto.
Qed.

Lemma take_spec {A : Type} (l : list A) (idxs : list Z) (vs : list A) :
  Forall (fun i => 0 <= i) idxs -> Np.take l idxs = Ok vs ->
  forall v, In v vs -> exists i, In i idxs /\ nth_error l (Z.to_nat i) = Some v.
Proof.
  intros Hpos H. apply mapM_Ok_Forall2 in H.
  induction H as [|i w idxs vs Hw _ IH]; intros v Hv; [contradiction|].
  inversion Hpos as [|? ? Hi Hpos']; subst.
  destruct Hv as [<-|Hv].
  - exists i. split; [left; reflexivity|]. apply item_nonneg in Hw; tauto.
  - destruct (IH Hpos' v Hv) as (k & Hk & E). exists k. split; [right|]; auto.
Qed.

Lemma argwhere_gt_unmatched (ptr : list Z) (i : Z) :
  In i (Np.argwhere (gt_unmatched ptr)) ->
  0 <= i < len ptr /\
  exists v, nth_error ptr (Z.to_nat i) = Some v /\ UNMATCHED < v.
Proof.
  intros H. apply argwhere_spec in H as [Hi Hn].
  unfold gt_unmatched in *. rewrite len_map in Hi. split; [exact Hi|].
  rewrite nth_error_map in Hn.
  destruct (nth_error ptr (Z.to_nat i)) as [v|]; [|discriminate].
  exists v. split; [reflexivity|]. simpl in Hn. injection Hn as Hn. lia.
Qed.

Lemma prune_total (ptr other : list Z) :
  Forall (ptr_ok (len other)) ptr ->
  exists ptr', prune ptr other (Np.argwhere (gt_unmatched ptr)) = Ok ptr'.
Proof.
  intros Hptr. unfold prune.
  set (idxs := Np.argwhere (gt_unmatched ptr)).
  assert (Hidx : Forall (fun i => 0 <= i < len ptr) idxs).
  { apply Forall_forall. intros i Hi. apply argwhere_gt_unmatched in Hi. tauto. }
  destruct (take_total ptr idxs Hidx) as [targets Et]. rewrite Et. simpl.
  assert (Hpos : Forall (fun i => 0 <= i) idxs)
    by (eapply Forall_impl; [|exact Hidx]; simpl; lia).
  assert (Htg : Forall (fun v => 0 <= v < len other) targets).
  { apply Forall_forall. intros v Hv.
    destruct (take_spec _ _ _ Hpos Et v Hv) as (i & Hi & E).
    apply argwhere_gt_unmatched in Hi as (_ & v' & E' & Hgt).
    rewrite E in E'. injection E' as <-.
    rewrite Forall_forall in Hptr. apply nth_error_In in E.
    destruct (Hptr v E) as [->|?]; [unfold UNMATCHED in Hgt; lia | assumption]. }
  destruct (take_total other targets Htg) as [back Eb]. rewrite Eb. simpl.
  assert (Hlen : length back = length idxs).
  { apply mapM_Ok_Forall2, Forall2_length in Et.
    apply mapM_Ok_Forall2, Forall2_length in Eb. congruence. }
  assert (Hsel : Forall (fun k => 0 <= k < len idxs)
                   (Np.argwhere (eq_unmatched back))).
  { apply Forall_forall. intros k Hk. apply argwhere_spec in Hk as [Hk _].
    unfold eq_unmatched in Hk. rewrite len_map in Hk. unfold len in *. lia. }
  destruct (take_total idxs _ Hsel) as [sel Es]. rewrite Es. simpl.
  apply put_total.
  apply Forall_forall. intros i Hi.
  assert (Hpos' : Forall (fun k => 0 <= k) (Np.argwhere (eq_unmatched back)))
    by (eapply Forall_impl; [|exact Hsel]; simpl; lia).
  destruct (take_spec _ _ _ Hpos' Es i Hi) as (k & _ & E).
  rewrite Forall_forall in Hidx. apply Hidx. eapply nth_error_In; eauto.
Qed.

Lemma candidates_relaxes (annotated predicted a2b b2a : list Z) :
  candidates annotated predicted = Ok (a2b, b2a) ->
  exists a2b0 b2a0,
    nearest annotated predicted = Ok a2b0 /\
    nearest predicted annotated = Ok b2a0 /\
    relaxes a2b0 a2b /\ relaxes b2a0 b2a.
Proof.
  unfold candidates; intros H.
  inv_bind H. inv_bind H. inv_bind H. inv_bind H. inv_bind H. inv_bind H.
  inv_bind H. injection H as <- <-.
  exists x, x0. repeat split; auto.
  - apply resolve_relaxes in E1. apply prune_relaxes in E3, E5.
    eauto using relaxes_trans.
  - apply resolve_relaxes in E2. apply prune_relaxes in E4.
    eauto using relaxes_trans.
Qed.

Lemma candidates_total (annotated predicted : list Z) :
  annotated <> [] -> predicted <> [] ->
  exists a2b b2a, candidates annotated predicted = Ok (a2b, b2a).
Proof.
  intros Ha Hp. unfold candidates.
  destruct (nearest_total annotated predicted Hp) as [a2b0 Ea].
  destruct (nearest_total predicted annotated Ha) as [b2a0 Eb].
  rewrite Ea, Eb. simpl.
  apply nearest_range in Ea as [Ra La]. apply nearest_range in Eb as [Rb Lb].
  assert (Ka : len a2b0 = len annotated) by (unfold len; congruence).
  assert (Kb : len b2a0 = len predicted) by (unfold len; congruence).
  destruct (resolve_total a2b0 b2a0) as [a2b1 E1]; [rewrite Kb; exact Ra|].
  rewrite E1. simpl. apply resolve_relaxes in E1.
  assert (Ka1 : len a2b1 = len annotated)
    by (unfold len in *; rewrite (relaxes_length _ _ E1); exact Ka).
  destruct (resolve_total b2a0 a2b1) as [b2a1 E2]; [rewrite Ka1; exact Rb|].
  rewrite E2. simpl. apply resolve_relaxes in E2.
  assert (Kb1 : len b2a1 = len predicted)
    by (unfold len in *; rewrite (relaxes_length _ _ E2); exact Kb).
  assert (Oa1 : Forall (ptr_ok (len predicted)) a2b1)
    by (eapply relaxes_ptr_ok; [exact E1 | apply in_range_ptr_ok; exact Ra]).
  assert (Ob1 : Forall (ptr_ok (len annotated)) b2a1)
    by (eapply relaxes_ptr_ok; [exact E2 | apply in_range_ptr_ok; exact Rb]).
  destruct (prune_total a2b1 b2a1) as [a2b2 E3]; [rewrite Kb1; exact Oa1|].
  rewrite E3. simpl. apply prune_relaxes in E3.
  assert (Ka2 : len a2b2 = len annotated)
    by (unfold len in *; rewrite (relaxes_length _ _ E3); exact Ka1).
  assert (Oa2 : Forall (ptr_ok (len predicted)) a2b2)
    by (eapply relaxes_ptr_ok; eauto).
  destruct (prune_total b2a1 a2b2) as [b2a2 E4]; [rewrite Ka2; exact Ob1|].
  rewrite E4. simpl. apply prune_relaxes in E4.
  assert (Kb2 : len b2a2 = len predicted)
    by (unfold len in *; rewrite (relaxes_length _ _ E4); exact Kb1).
  destruct (prune_total a2b2 b2a2) as [a2b3 E5]; [rewrite Kb2; exact Oa2|].
  rewrite E5. simpl. eauto.
Qed.

Lemma compare_events_general (annotated predicted : list Z) (thr : Z) :
  annotated <> [] -> predicted <> [] ->
  compare_events annotated predicted thr =
  ('(a2b, b2a) <- candidates annotated predicted ;;
   '(a2b, b2a) <- reject annotated predicted thr a2b b2a ;;
   time_diff <- time_differences annotated predicted a2b b2a ;;
   Ok (a2b, b2a, time_diff)).
Proof.
  intros Ha Hp. unfold compare_events.
  destruct annotated; [contradiction|]. destruct predicted; [contradiction|].
  reflexivity.
Qed.

(** Whatever [compare_events] returns on two non-empty arrays is the pair of
    nearest-candidate arrays with some entries replaced by the sentinel. *)
Lemma compare_events_relaxes (annotated predicted : list Z) (thr : Z)
  (a2b b2a td : list Z) :
  annotated <> [] -> predicted <> [] ->
  compare_events annotated predicted thr = Ok (a2b, b2a, td) ->
  exists a2b0 b2a0,
    nearest annotated predicted = Ok a2b0 /\
    nearest predicted annotated = Ok b2a0 /\
    relaxes a2b0 a2b /\ relaxes b2a0 b2a.
Proof.
  intros Ha Hp H. rewrite compare_events_general in H by assumption.
  inv_bind H. destruct x as [a2b1 b2a1].
  inv_bind H. destruct x as [a2b2 b2a2].
  inv_bind H. injection H as <- <- <-.
  apply candidates_relaxes in E as (a2b0 & b2a0 & Ea & Eb & Ra & Rb).
  apply reject_relaxes in E0 as [Ra' Rb'].
  exists a2b0, b2a0. repeat split; eauto using relaxes_trans.
Qed.

(** C10. On two non-empty arrays, lines 114-150 never raise, and every entry
    of the [a2b] and [b2a] that [compare_events] returns is the sentinel or an
    index into the other array: the returned arrays are the nearest-candidate
    arrays, whose entries are indices in range, with some entries replaced by
    the sentinel. *)
Theorem compare_events_pointers_in_range :
  forall (annotated predicted : list Z) (thr : Z),
    annotated <> [] -> predicted <> [] ->
    (exists a2b b2a, candidates annotated predicted = Ok (a2b, b2a)) /\
    (forall a2b b2a td,
        compare_events annotated predicted thr = Ok (a2b, b2a, td) ->
        Forall (ptr_ok (len predicted)) a2b /\
        Forall (ptr_ok (len annotated)) b2a /\
        length a2b = length annotated /\
        length b2a = length predicted /\
        exists a2b0 b2a0,
          nearest annotated predicted = Ok a2b0 /\
          nearest predicted annotated = Ok b2a0 /\
          Forall (fun v => 0 <= v < len predicted) a2b0 /\
          Forall (fun v => 0 <= v < len annotated) b2a0 /\
          relaxes a2b0 a2b /\ relaxes b2a0 b2a).
Proof.
  intros annotated predicted thr Ha Hp.
  split; [apply candidates_total; assumption|].
  intros a2b b2a td H.
  destruct (compare_events_relaxes _ _ _ _ _ _ Ha Hp H)
    as (a2b0 & b2a0 & Ea & Eb & Ra & Rb).
  destruct (nearest_range _ _ _ Ea) as [Ia La].
  destruct (nearest_range _ _ _ Eb) as [Ib Lb].
  repeat split.
  - eapply relaxes_ptr_ok; [exact Ra | apply in_range_ptr_ok; exact Ia].
  - eapply relaxes_ptr_ok; [exact Rb | apply in_range_ptr_ok; exact Ib].
  - rewrite (relaxes_length _ _ Ra). exact La.
  - rewrite (relaxes_length _ _ Rb). exact Lb.
  - exists a2b0, b2a0. repeat split; assumption.
Qed.

Lemma compare_events_pointers_in_range_witness :
  Forall (ptr_ok (len [102])) [0; UNMATCHED] /\
  Forall (ptr_ok (len [100; 105])) [0].
Proof.
  destruct (compare_events_pointers_in_range [100; 105] [102] 20) as [_ H];
    [discriminate | discriminate |].
  destruct (H [0; UNMATCHED] [0] [2] eq_refl) as (Ha & Hb & _).
  exact (conj Ha Hb).
Defined.

(** ** The branches for empty inputs *)

(** C1, as the code has it.  With both arrays empty the three results are
    empty.  With events on one side only, the pointer array of that side is
    all sentinel, the pointer array of the empty side is empty, and the
    third result is not empty: it holds one sentinel per event. *)
Theorem compare_events_empty_sides :
  forall (e : Z) (events : list Z) (thr : Z),
    compare_events [] [] thr = Ok ([], [], []) /\
    compare_events (e :: events) [] thr =
      Ok (repeat UNMATCHED (length (e :: events)), [],
          repeat UNMATCHED (length (e :: events))) /\
    compare_events [] (e :: events) thr =
      Ok ([], repeat UNMATCHED (length (e :: events)),
          repeat UNMATCHED (length (e :: events))).
Proof.
  intros e events thr. repeat split.
Qed.

(** C1 as stated fails: one annotated event and no predicted event give the
    timing differences [[-999]], not the empty sequence. *)
Lemma compare_events_empty_predicted_time_diff :
  compare_events [5] [] 20 = Ok ([UNMATCHED], [], [UNMATCHED]) /\
  compare_events [5] [] 20 <> Ok ([UNMATCHED], [], []).
Proof.
  split; [reflexivity | discriminate].
Qed.

(** ** The literal scenarios *)

(** C5. annotated = [100, 105], predicted = [102], thr = 20: both annotated
    events first point to the one predicted event, whose own pointer selects
    annotated event 0 (sample 100); that pair is kept, annotated event 1
    (sample 105) is unmatched; one missed, no extra. *)
Theorem scenario_ambiguous_candidate :
  nearest [100; 105] [102] = Ok [0; 0] /\
  nearest [102] [100; 105] = Ok [0] /\
  resolve [0; 0] [0] = Ok [0; UNMATCHED] /\
  compare_events [100; 105] [102] 20 = Ok ([0; UNMATCHED], [0], [2]) /\
  MetricsGaitEvents [100; 105] [102] [0; UNMATCHED] [0] =
    Ok (1, 0, [102; UNMATCHED]).
Proof.
  repeat split.
Qed.

(** C8. annotated = [50, 150], predicted = [52, 300], thr = 20: 50 is matched
    with 52, 150 is missed and 300 is extra; missed = 1, extra = 1 and the
    timing differences are [2]. *)
Theorem scenario_one_match :
  compare_events [50; 150] [52; 300] 20 =
    Ok ([0; UNMATCHED], [0; UNMATCHED], [2]) /\
  MetricsGaitEvents [50; 150] [52; 300] [0; UNMATCHED] [0; UNMATCHED] =
    Ok (1, 1, [52; UNMATCHED]).
Proof.
  repeat split.
Qed.

(** ** MetricsGaitEvents: shape of the aligned predictions *)

Lemma full_like_length {A : Type} (l : list A) (v : Z) :
  length (Np.full_like l v) = length l.
Proof. unfold Np.full_like. apply repeat_length. Qed.

Lemma MetricsGaitEvents_length (gs dut t2p p2t aligned : list Z) (missed extra : Z) :
  MetricsGaitEvents gs dut t2p p2t = Ok (missed, extra, aligned) ->
  length aligned = length gs.
Proof.
  unfold MetricsGaitEvents; intros H. do 4 inv_bind H. injection H as _ _ <-.
  apply put_array_length in E2. rewrite E2. apply full_like_length.
Qed.

Lemma setitem_other {A : Type} (l l' : list A) (i : Z) (v : A) (k : nat) :
  0 <= i -> Z.of_nat k <> i -> Np.setitem l i v = Ok l' ->
  nth_error l' k = nth_error l k.
Proof.
  intros Hi Hk H. unfold Np.setitem, Np.norm_index in H.
  destruct ((0 <=? i) && (i <? len l)) eqn:E1.
  - simpl in H. injection H as <-. rewrite update_nth_error.
    destruct (Nat.eqb k (Z.to_nat i)) eqn:E; [|reflexivity].
    apply Nat.eqb_eq in E. lia.
  - destruct ((- len l <=? i) && (i <? 0)) eqn:E2; [|discriminate].
    apply andb_prop in E2 as [_ E2]. lia.
Qed.

Lemma put_other {A : Type} (idxs : list Z) (v : A) (l l' : list A) (k : nat) :
  Forall (fun i => 0 <= i) idxs -> ~ In (Z.of_nat k) idxs ->
  Np.put l idxs v = Ok l' -> nth_error l' k = nth_error l k.
Proof.
  revert l; induction idxs as [|i r IH]; simpl; intros l Hpos Hk H.
  - injection H as <-. reflexivity.
  - inversion Hpos; subst. inv_bind H.
    rewrite (IH x) by tauto.
    eapply setitem_other; eauto.
Qed.

Lemma put_each_other {A : Type} (idxs : list Z) (vals l l' : list A) (k : nat) :
  Forall (fun i => 0 <= i) idxs -> ~ In (Z.of_nat k) idxs ->
  Np.put_each l idxs vals = Ok l' -> nth_error l' k = nth_error l k.
Proof.
  revert vals l; induction idxs as [|i r IH]; intros [|v vs] l Hpos Hk H;
    simpl in H; try (injection H as <-; reflexivity).
  inversion Hpos; subst. inv_bind H. simpl in Hk.
  rewrite (IH vs x) by tauto.
  eapply setitem_other; eauto.
Qed.

Lemma put_array_other {A : Type} (idxs : list Z) (vals l l' : list A) (k : nat) :
  Forall (fun i => 0 <= i) idxs -> ~ In (Z.of_nat k) idxs ->
  Np.put_array l idxs vals = Ok l' -> nth_error l' k = nth_error l k.
Proof.
  unfold Np.put_array. intros Hpos Hk.
  destruct (Nat.eqb (length vals) (length idxs)).
  - apply put_each_other; assumption.
  - destruct vals as [|v [|? ?]]; try discriminate. apply put_other; assumption.
Qed.

Lemma argwhere_nonneg (m : list bool) : Forall (fun i => 0 <= i) (Np.argwhere m).
Proof.
  apply Forall_forall. intros i Hi. apply argwhere_spec in Hi. lia.
Qed.

(** An annotated event whose pointer is the sentinel keeps the sentinel in the
    aligned predictions. *)
Lemma MetricsGaitEvents_missed_slot (gs dut t2p p2t aligned : list Z)
  (missed extra : Z) (k : nat) :
  MetricsGaitEvents gs dut t2p p2t = Ok (missed, extra, aligned) ->
  (k < length gs)%nat ->
  nth_error t2p k = Some UNMATCHED ->
  nth_error aligned k = Some UNMATCHED.
Proof.
  unfold MetricsGaitEvents; intros H Hk Hu. do 4 inv_bind H.
  injection H as _ _ <-.
  assert (Hout : ~ In (Z.of_nat k) (Np.argwhere (ne_unmatched t2p))).
  { intros Hin. apply argwhere_spec in Hin as [_ Hin].
    rewrite Nat2Z.id in Hin. unfold ne_unmatched in Hin.
    rewrite nth_error_map, Hu in Hin. discriminate. }
  rewrite (put_array_other _ _ _ _ k (argwhere_nonneg _) Hout E2).
  unfold Np.full_like. apply nth_error_repeat. exact Hk.
Qed.

Lemma compare_events_lengths (annotated predicted : list Z) (thr : Z)
  (a2b b2a td : list Z) :
  compare_events annotated predicted thr = Ok (a2b, b2a, td) ->
  length a2b = length annotated /\ length b2a = length predicted.
Proof.
  intros H. destruct annotated as [|a annotated], predicted as [|p predicted].
  - injection H as <- <- _. auto.
  - injection H as <- <- _. split; [reflexivity | apply full_like_length].
  - injection H as <- <- _. split; [apply full_like_length | reflexivity].
  - apply compare_events_relaxes in H as (a2b0 & b2a0 & Ea & Eb & Ra & Rb);
      try discriminate.
    apply nearest_range in Ea as [_ La]. apply nearest_range in Eb as [_ Lb].
    rewrite (relaxes_length _ _ Ra), (relaxes_length _ _ Rb). auto.
Qed.

(** ** modelEvaluate: one window *)

Section WindowStep.

Context {prob label : Type}.
Variable find_peaks : list prob -> list Z.
Variable ge_min_height : prob -> bool.
Variable is_event : label -> bool.

Lemma window_step_inv (L : Z) (t : list (list label)) (acc acc' : accumulator)
  (i : nat) (predLabel : list prob) :
  window_step find_peaks ge_min_height is_event L t acc (i, predLabel) = Ok acc' ->
  exists targetLabel dut t2p p2t td missed extra aligned,
    Np.item t (Z.of_nat i) = Ok targetLabel /\
    detect find_peaks ge_min_height predLabel = Ok dut /\
    compare_events (targets is_event targetLabel) dut 20 = Ok (t2p, p2t, td) /\
    MetricsGaitEvents (targets is_event targetLabel) dut t2p p2t =
      Ok (missed, extra, aligned) /\
    acc' = mkAcc (missedEvents acc + missed) (extraEvents acc + extra)
             (GSevents acc + len (targets is_event targetLabel))
             (Differences acc ++ td)
             (ipksDUT acc ++
                map (option_map (fun d => Z.of_nat i * L + d + 1))
                    (map to_nan aligned))
             (ipksGS acc ++
                map (fun g => Z.of_nat i * L + g + 1)
                    (targets is_event targetLabel)).
Proof.
  unfold window_step; intros H.
  inv_bind H. inv_bind H. inv_bind H. destruct x1 as [[t2p p2t] td].
  inv_bind H. destruct x1 as [[missed extra] aligned].
  injection H as <-.
  exists x, x0, t2p, p2t, td, missed, extra, aligned. repeat split; auto.
Qed.

Lemma evaluate_from_GS (preds : list (list prob)) (t : list (list label))
  (ws : list (nat * list prob)) (acc acc' : accumulator) :
  evaluate_from find_peaks ge_min_height is_event preds t acc ws = Ok acc' ->
  exists tls,
    Forall2 (fun w tl => Np.item t (Z.of_nat (fst w)) = Ok tl) ws tls /\
    ipksGS acc' = ipksGS acc ++ shifted_targets is_event (shape1 preds) ws tls.
Proof.
  unfold evaluate_from. revert acc.
  induction ws as [|[i w] ws IH]; simpl; intros acc H.
  - injection H as <-. exists []. split; [constructor|].
    unfold shifted_targets; simpl. rewrite app_nil_r. reflexivity.
  - inv_bind H.
    apply window_step_inv in E
      as (tl & dut & t2p & p2t & td & missed & extra & aligned &
          Et & _ & _ & _ & ->).
    destruct (IH _ H) as (tls & Htls & Hgs).
    exists (tl :: tls). split; [constructor; assumption|].
    rewrite Hgs. simpl. unfold shifted_targets. simpl.
    rewrite <- app_assoc. do 2 f_equal.
    apply map_ext. intros g. lia.
Qed.

Lemma evaluate_from_parallel (preds : list (list prob)) (t : list (list label))
  (ws : list (nat * list prob)) (acc acc' : accumulator) :
  length (ipksDUT acc) = length (ipksGS acc) ->
  evaluate_from find_peaks ge_min_height is_event preds t acc ws = Ok acc' ->
  length (ipksDUT acc') = length (ipksGS acc').
Proof.
  unfold evaluate_from. intros H0.
  apply (foldM_inv (fun a => length (ipksDUT a) = length (ipksGS a)));
    [|exact H0].
  intros s [i w] s' Hs _ Hstep.
  apply window_step_inv in Hstep
    as (tl & dut & t2p & p2t & td & missed & extra & aligned &
        _ & _ & _ & Hm & ->).
  simpl. rewrite !length_app, !length_map.
  rewrite (MetricsGaitEvents_length _ _ _ _ _ _ _ Hm). lia.
Qed.

End WindowStep.

(** ** modelEvaluate: the two timelines *)

(** C9. Every window that [modelEvaluate] processes appends to the predicted
    and to the ground-truth timeline as many entries as the window has
    ground-truth events, an event whose pointer is the sentinel appearing as
    [nan] on the predicted side; so the two sequences returned have the same
    length. *)
Theorem modelEvaluate_parallel :
  forall (prob label X : Type) (find_peaks : list prob -> list Z)
         (ge_min_height : prob -> bool) (is_event : label -> bool),
    (forall L t acc acc' i predLabel,
        window_step find_peaks ge_min_height is_event L t acc (i, predLabel)
          = Ok acc' ->
        exists targetLabel new_dut new_gs,
          Np.item t (Z.of_nat i) = Ok targetLabel /\
          ipksDUT acc' = ipksDUT acc ++ new_dut /\
          ipksGS acc' = ipksGS acc ++ new_gs /\
          length new_dut = length (targets is_event targetLabel) /\
          length new_gs = length (targets is_event targetLabel) /\
          forall dut t2p p2t td k,
            detect find_peaks ge_min_height predLabel = Ok dut ->
            compare_events (targets is_event targetLabel) dut 20
              = Ok (t2p, p2t, td) ->
            nth_error t2p k = Some UNMATCHED ->
            nth_error new_dut k = Some None) /\
    (forall (model : X -> list (list prob)) x t extra missed dut gs,
        modelEvaluate find_peaks ge_min_height is_event model x t
          = Ok (extra, missed, dut, gs) ->
        length dut = length gs).
Proof.
  intros prob label X find_peaks ge_min_height is_event. split.
  - intros L t acc acc' i predLabel H.
    apply window_step_inv in H
      as (tl & dut & t2p & p2t & td & missed & extra & aligned &
          Et & Ed & Ec & Hm & ->).
    eexists tl, _, _. simpl.
    split; [exact Et|]. split; [reflexivity|]. split; [reflexivity|].
    pose proof (MetricsGaitEvents_length _ _ _ _ _ _ _ Hm) as Hlen.
    split; [rewrite !length_map; exact Hlen|].
    split; [apply length_map|].
    intros dut' t2p' p2t' td' k Ed' Ec' Hk.
    rewrite Ed in Ed'. injection Ed' as <-.
    rewrite Ec in Ec'. injection Ec' as <- <- <-.
    assert (Hlt : (k < length (targets is_event tl))%nat).
    { apply compare_events_lengths in Ec as [<- _].
      apply nth_error_Some. congruence. }
    rewrite !nth_error_map.
    rewrite (MetricsGaitEvents_missed_slot _ _ _ _ _ _ _ k Hm Hlt Hk).
    reflexivity.
  - intros model x t extra missed dut gs H.
    unfold modelEvaluate in H. inv_bind H. injection H as _ _ <- <-.
    eapply evaluate_from_parallel; [|exact E]. reflexivity.
Qed.

Lemma modelEvaluate_parallel_witness :
  modelEvaluate no_peaks (fun b : bool => b) is_one
    (fun _ : unit => silent_preds) tt scenario_targets
    = Ok (0, 2, [None; None], [11; 206]) /\
  length [@None Z; None] = length [11; 206].
Proof.
  assert (H : modelEvaluate no_peaks (fun b : bool => b) is_one
                (fun _ : unit => silent_preds) tt scenario_targets
              = Ok (0, 2, [None; None], [11; 206]))
    by (vm_compute; reflexivity).
  split; [exact H|].
  exact (proj2 (modelEvaluate_parallel bool Z unit no_peaks (fun b => b) is_one)
           _ _ _ _ _ _ _ H).
Defined.

(** C7, as the code has it.  Window [i] of a bout whose windows have length
    [L] appends its ground-truth events and its aligned predicted events
    shifted by [i*L + 1], a missing prediction staying [nan]; the ground-truth
    timeline returned is the concatenation of the shifted events of the
    windows.  Two windows of length 200 with one ground-truth event at local
    index 10 in window 0 and at local index 5 in window 1 give the
    ground-truth timeline [11, 206], whatever is predicted. *)
Theorem modelEvaluate_offsets :
  (forall (prob label X : Type) (find_peaks : list prob -> list Z)
          (ge_min_height : prob -> bool) (is_event : label -> bool),
      (forall L t acc acc' i predLabel,
          window_step find_peaks ge_min_height is_event L t acc (i, predLabel)
            = Ok acc' ->
          exists targetLabel dut t2p p2t td missed extra aligned,
            Np.item t (Z.of_nat i) = Ok targetLabel /\
            detect find_peaks ge_min_height predLabel = Ok dut /\
            compare_events (targets is_event targetLabel) dut 20
              = Ok (t2p, p2t, td) /\
            MetricsGaitEvents (targets is_event targetLabel) dut t2p p2t
              = Ok (missed, extra, aligned) /\
            ipksGS acc' =
              ipksGS acc ++
              map (fun g => g + (Z.of_nat i * L + 1))
                  (targets is_event targetLabel) /\
            ipksDUT acc' =
              ipksDUT acc ++
              map (fun v => if v =? UNMATCHED then None
                            else Some (v + (Z.of_nat i * L + 1))) aligned) /\
      (forall (model : X -> list (list prob)) x t extra missed dut gs,
          modelEvaluate find_peaks ge_min_height is_event model x t
            = Ok (extra, missed, dut, gs) ->
          exists tls,
            Forall2 (fun w tl => Np.item t (Z.of_nat (fst w)) = Ok tl)
                    (enumerate (model x)) tls /\
            gs = shifted_targets is_event (shape1 (model x))
                   (enumerate (model x)) tls)) /\
  (forall (prob X : Type) (find_peaks : list prob -> list Z)
          (ge_min_height : prob -> bool) (model : X -> list (list prob)) x
          extra missed dut gs,
      length (model x) = 2%nat ->
      shape1 (model x) = 200 ->
      modelEvaluate find_peaks ge_min_height is_one model x scenario_targets
        = Ok (extra, missed, dut, gs) ->
      gs = [11; 206]).
Proof.
  assert (Hglobal :
    forall (prob label X : Type) (find_peaks : list prob -> list Z)
           (ge_min_height : prob -> bool) (is_event : label -> bool)
           (model : X -> list (list prob)) x t extra missed dut gs,
      modelEvaluate find_peaks ge_min_height is_event model x t
        = Ok (extra, missed, dut, gs) ->
      exists tls,
        Forall2 (fun w tl => Np.item t (Z.of_nat (fst w)) = Ok tl)
                (enumerate (model x)) tls /\
        gs = shifted_targets is_event (shape1 (model x))
               (enumerate (model x)) tls).
  { intros prob label X find_peaks ge_min_height is_event model x t
           extra missed dut gs H.
    unfold modelEvaluate in H. inv_bind H. injection H as _ _ _ <-.
    apply evaluate_from_GS in E as (tls & Htls & Hgs).
    exists tls. split; [exact Htls | exact Hgs]. }
  split.
  - intros prob label X find_peaks ge_min_height is_event. split.
    + intros L t acc acc' i predLabel H.
      apply window_step_inv in H
        as (tl & dut & t2p & p2t & td & missed & extra & aligned &
            Et & Ed & Ec & Hm & ->).
      exists tl, dut, t2p, p2t, td, missed, extra, aligned. simpl.
      repeat (split; [assumption|]). split.
      * f_equal. apply map_ext. intros g. lia.
      * f_equal. rewrite map_map. apply map_ext. intros v. unfold to_nan.
        destruct (v =? UNMATCHED); simpl; [reflexivity|]. f_equal. lia.
    + apply Hglobal.
  - intros prob X find_peaks ge_min_height model x extra missed dut gs
           Hn HL H.
    apply Hglobal in H as (tls & Htls & ->). rewrite HL.
    destruct (model x) as [|w0 [|w1 [|w2 ws]]]; try discriminate.
    unfold enumerate in *. simpl in Htls.
    inversion Htls as [|? tl0 ? tls0 H0 Htls0]; subst.
    inversion Htls0 as [|? tl1 ? tls1 H1 Htls1]; subst.
    inversion Htls1; subst.
    vm_compute in H0. injection H0 as <-.
    vm_compute in H1. injection H1 as <-.
    vm_compute. reflexivity.
Qed.

Lemma modelEvaluate_offsets_witness :
  length silent_preds = 2%nat /\
  shape1 silent_preds = 200 /\
  modelEvaluate no_peaks (fun b : bool => b) is_one
    (fun _ : unit => silent_preds) tt scenario_targets
    = Ok (0, 2, [None; None], [11; 206]) /\
  [11; 206] = [11; 206].
Proof.
  assert (H : modelEvaluate no_peaks (fun b : bool => b) is_one
                (fun _ : unit => silent_preds) tt scenario_targets
              = Ok (0, 2, [None; None], [11; 206]))
    by (vm_compute; reflexivity).
  split; [reflexivity|]. split; [reflexivity|]. split; [exact H|].
  exact (proj2 modelEvaluate_offsets bool unit no_peaks (fun b => b)
           (fun _ => silent_preds) tt 0 2 [None; None] [11; 206]
           eq_refl eq_refl H).
Defined.

(** C7 as stated fails: in that scenario the second event lands on 206, not
    on 215. *)
Lemma scenario_offsets_not_215 :
  modelEvaluate no_peaks (fun b : bool => b) is_one
    (fun _ : unit => silent_preds) tt scenario_targets
    = Ok (0, 2, [None; None], [11; 206]) /\
  [11; 206] <> [11; 215].
Proof.
  split; [vm_compute; reflexivity | discriminate].
Qed.

(** ** Where the reciprocity passes fall short

    A chain of nearest neighbours
    predicted 0 -> annotated 50 -> predicted 80 -> annotated 109 ->
    predicted 130 <-> annotated 128 is longer than the three passes of
    lines 144-150 can unwind: the pointer of predicted 0 outlives the pointer
    of annotated 50 it refers to.  Lines 153-164 then pair the surviving
    pointers of the two sides by position. *)

Lemma points_dec_false (ptr : list Z) (i j : Z) :
  nth_error ptr (Z.to_nat i) <> Some j -> ~ points ptr i j.
Proof. intros H (_ & E & _). contradiction. Qed.

(** C3 at annotated = [50, 109, 128], predicted = [0, 80, 130], thr = 20:
    the arrays returned are not reciprocal.  Predicted event 0 still points
    to annotated event 0, whose own pointer is the sentinel, and annotated
    event 2 still points to predicted event 2, whose pointer was cleared. *)
Theorem compare_events_dangling_pointer :
  candidates [50; 109; 128] [0; 80; 130] =
    Ok ([UNMATCHED; UNMATCHED; 2], [0; UNMATCHED; 2]) /\
  compare_events [50; 109; 128] [0; 80; 130] 20 =
    Ok ([UNMATCHED; UNMATCHED; 2], [0; UNMATCHED; UNMATCHED], [-128]) /\
  points [0; UNMATCHED; UNMATCHED] 0 0 /\
  ~ points [UNMATCHED; UNMATCHED; 2] 0 0 /\
  points [UNMATCHED; UNMATCHED; 2] 2 2 /\
  ~ points [0; UNMATCHED; UNMATCHED] 2 2 /\
  ~ reciprocal [UNMATCHED; UNMATCHED; 2] [0; UNMATCHED; UNMATCHED].
Proof.
  assert (Hp : points [0; UNMATCHED; UNMATCHED] 0 0)
    by (repeat split; [lia | discriminate]).
  assert (Hn : ~ points [UNMATCHED; UNMATCHED; 2] 0 0)
    by (apply points_dec_false; discriminate).
  repeat split; try assumption; try lia; try discriminate.
  - apply points_dec_false; discriminate.
  - intros [_ Hba]. apply Hn, Hba, Hp.
Qed.

(** C2 at the same input: the timing difference returned is -128, beyond the
    threshold of 20; the nearest candidate of predicted event 0 (sample 0) is
    annotated event 0 (sample 50), 50 samples away, and predicted event 0
    keeps that pointer in the result; and it is annotated 128 and predicted
    130, 2 samples apart, whose pair is broken. *)
Theorem compare_events_exceeds_threshold :
  nearest [0; 80; 130] [50; 109; 128] = Ok [0; 1; 2] /\
  compare_events [50; 109; 128] [0; 80; 130] 20 =
    Ok ([UNMATCHED; UNMATCHED; 2], [0; UNMATCHED; UNMATCHED], [-128]) /\
  Exists (fun d => 20 < Z.abs d) [-128] /\
  points [0; UNMATCHED; UNMATCHED] 0 0 /\
  20 < Z.abs (zn [0; 80; 130] 0 - zn [50; 109; 128] 0) /\
  Z.abs (zn [0; 80; 130] 2 - zn [50; 109; 128] 2) <= 20 /\
  zn [0; UNMATCHED; UNMATCHED] 2 = UNMATCHED.
Proof.
  repeat split; try (vm_compute; congruence); try discriminate.
  constructor. simpl. lia.
Qed.

(** C4 at annotated = [0, 20, 75, 150], predicted = [0, 45, 110], thr = 20:
    two events are counted as missed and two as extra, which no number of
    matched pairs reconciles with four annotated and three predicted events;
    two annotated pointers and one predicted pointer survive. *)
Theorem counts_not_conserved :
  compare_events [0; 20; 75; 150] [0; 45; 110] 20 =
    Ok ([0; UNMATCHED; UNMATCHED; 2], [0; UNMATCHED; UNMATCHED], [0; -150]) /\
  MetricsGaitEvents [0; 20; 75; 150] [0; 45; 110]
    [0; UNMATCHED; UNMATCHED; 2] [0; UNMATCHED; UNMATCHED] =
    Ok (2, 2, [0; UNMATCHED; UNMATCHED; 0]) /\
  valid_pos [0; UNMATCHED; UNMATCHED; 2] = [0; 3] /\
  valid_pos [0; UNMATCHED; UNMATCHED] = [0] /\
  ~ exists matched : Z,
      2 + matched = len [0; 20; 75; 150] /\ 2 + matched = len [0; 45; 110].
Proof.
  repeat split.
  intros (matched & H1 & H2). unfold len in *. simpl in *. lia.
Qed.

(** The same arrays in [MetricsGaitEvents]: annotated event 2 points to
    predicted event 2, at sample 130, and is aligned with sample 0. *)
Lemma aligned_wrong_event :
  compare_events [50; 109; 128] [0; 80; 130] 20 =
    Ok ([UNMATCHED; UNMATCHED; 2], [0; UNMATCHED; UNMATCHED], [-128]) /\
  MetricsGaitEvents [50; 109; 128] [0; 80; 130]
    [UNMATCHED; UNMATCHED; 2] [0; UNMATCHED; UNMATCHED] =
    Ok (2, 2, [UNMATCHED; UNMATCHED; 0]) /\
  points [UNMATCHED; UNMATCHED; 2] 2 2 /\
  nth_error [0; 80; 130] 2 = Some 130 /\
  nth_error [UNMATCHED; UNMATCHED; 0] 2 = Some 0.
Proof.
  repeat split; try lia; try discriminate.
Qed.

(** On other chains the mismatch between the two sides makes the threshold
    step, the subtraction of line 153 or the assignment of line 206 raise. *)
Lemma compare_events_raises :
  compare_events [0; 20; 60] [0; 40; 80] 20 = Raise IndexError /\
  compare_events [100; 175; 193; 1100; 1175; 1193]
                 [0; 150; 187; 1000; 1150; 1187] 2000 = Raise ValueError /\
  compare_events [0; 1; 3] [0; 2; 4] 20 =
    Ok ([0; UNMATCHED; UNMATCHED], [0; UNMATCHED; 2], [0; 4]) /\
  MetricsGaitEvents [0; 1; 3] [0; 2; 4]
    [0; UNMATCHED; UNMATCHED] [0; UNMATCHED; 2] = Raise ValueError.
Proof.
  repeat split.
Qed.

(** ** When the passes do reach reciprocity

    On sorted arrays, whenever lines 114-150 leave reciprocal pointers, the
    threshold step, the timing differences and [MetricsGaitEvents] do what
    they are meant to do. *)

Lemma zn_nth_error (l : list Z) (i v : Z) :
  0 <= i -> nth_error l (Z.to_nat i) = Some v -> zn l i = v /\ i < len l.
Proof.
  intros Hi H. split.
  - unfold zn. apply nth_error_nth. exact H.
  - assert (Z.to_nat i < length l)%nat by (apply nth_error_Some; congruence).
    unfold len. lia.
Qed.

Lemma nth_error_zn (l : list Z) (i : Z) :
  0 <= i < len l -> nth_error l (Z.to_nat i) = Some (zn l i).
Proof.
  intros Hi. unfold zn. apply nth_error_nth'. unfold len in Hi. lia.
Qed.

Lemma zn_app_l (l1 l2 : list Z) (k : Z) :
  0 <= k < len l1 -> zn (l1 ++ l2) k = zn l1 k.
Proof. intros H. unfold zn, len in *. apply app_nth1. lia. Qed.

Lemma zn_app_r (l1 l2 : list Z) (k : Z) :
  len l1 <= k -> zn (l1 ++ l2) k = zn l2 (k - len l1).
Proof.
  intros H. unfold zn, len in *. rewrite app_nth2 by lia.
  f_equal. lia.
Qed.

Lemma len_app {A : Type} (l1 l2 : list A) : len (l1 ++ l2) = len l1 + len l2.
Proof. unfold len. rewrite length_app. lia. Qed.

Lemma zn_map (f : Z -> Z) (l : list Z) (k : Z) :
  0 <= k < len l -> zn (map f l) k = f (zn l k).
Proof.
  intros H. unfold zn, len in *.
  rewrite nth_indep with (d' := f 0) by (rewrite length_map; lia).
  apply map_nth.
Qed.

Lemma argmin_aux_spec (l pre : list Z) (best besti : Z) :
  0 <= besti < len pre ->
  zn pre besti = best ->
  (forall k, 0 <= k < besti -> best < zn pre k) ->
  (forall k, 0 <= k < len pre -> best <= zn pre k) ->
  let r := Np.argmin_aux best besti (len pre) l in
  0 <= r < len (pre ++ l) /\
  (forall k, 0 <= k < r -> zn (pre ++ l) r < zn (pre ++ l) k) /\
  (forall k, 0 <= k < len (pre ++ l) -> zn (pre ++ l) r <= zn (pre ++ l) k).
Proof.
  revert pre best besti; induction l as [|x l IH]; intros pre best besti Hi Hb Hlt Hle.
  - simpl. rewrite app_nil_r. rewrite Hb. repeat split; auto; lia.
  - simpl.
    assert (Hlen : len (pre ++ [x]) = len pre + 1)
      by (rewrite len_app; reflexivity).
    assert (Hx : zn (pre ++ [x]) (len pre) = x).
    { rewrite zn_app_r by lia. replace (len pre - len pre) with 0 by lia.
      reflexivity. }
    replace (pre ++ x :: l) with ((pre ++ [x]) ++ l)
      by (rewrite <- app_assoc; reflexivity).
    rewrite <- Hlen.
    destruct (x <? best) eqn:E.
    + apply Z.ltb_lt in E. apply IH.
      * lia.
      * exact Hx.
      * intros k Hk. rewrite zn_app_l by lia. specialize (Hle k). lia.
      * intros k Hk. destruct (Z.eq_dec k (len pre)) as [->|Hne].
        -- rewrite Hx. lia.
        -- rewrite zn_app_l by lia. specialize (Hle k). lia.
    + apply Z.ltb_ge in E. apply IH.
      * lia.
      * rewrite zn_app_l by lia. exact Hb.
      * intros k Hk. rewrite zn_app_l by lia. apply Hlt. lia.
      * intros k Hk. destruct (Z.eq_dec k (len pre)) as [->|Hne].
        -- rewrite Hx. lia.
        -- rewrite zn_app_l by lia. apply Hle. lia.
Qed.

Lemma argmin_spec (l : list Z) (r : Z) :
  Np.argmin l = Ok r ->
  0 <= r < len l /\
  (forall k, 0 <= k < r -> zn l r < zn l k) /\
  (forall k, 0 <= k < len l -> zn l r <= zn l k).
Proof.
  destruct l as [|x l]; simpl; [discriminate|]. intros [= <-].
  apply (argmin_aux_spec l [x] x 0); unfold len; simpl.
  - lia.
  - reflexivity.
  - intros k Hk. lia.
  - intros k Hk. replace k with 0 by lia. reflexivity.
Qed.

Lemma nearest_spec (src dst ptr : list Z) (i : Z) :
  nearest src dst = Ok ptr -> 0 <= i < len src ->
  is_nearest dst (zn src i) (zn ptr i).
Proof.
  unfold nearest; intros H Hi. apply mapM_Ok_Forall2 in H.
  assert (Hk : (Z.to_nat i < length src)%nat) by (unfold len in Hi; lia).
  change (is_nearest dst (nth (Z.to_nat i) src 0) (nth (Z.to_nat i) ptr 0)).
  revert Hk. generalize (Z.to_nat i). clear i Hi.
  induction H as [|e v src ptr Hv _ IH]; intros k Hk; simpl in Hk; [lia|].
  destruct k as [|k]; simpl; [|apply IH; lia].
  apply argmin_spec in Hv as (Hr & Hlt & Hle).
  rewrite len_map in Hr, Hle.
  split; [exact Hr|]. split.
  - intros j Hj. specialize (Hlt j Hj).
    rewrite !zn_map in Hlt by lia. exact Hlt.
  - intros j Hj. specialize (Hle j Hj).
    rewrite !zn_map in Hle by lia. exact Hle.
Qed.

Lemma relaxes_points (ptr0 ptr : list Z) (i j : Z) :
  relaxes ptr0 ptr -> points ptr i j -> points ptr0 i j.
Proof.
  intros R (Hi & E & Hj). split; [exact Hi|]. split; [|exact Hj].
  revert E. generalize (Z.to_nat i).
  induction R as [|o v l0 l Hv _ IH]; intros [|k] E; simpl in *;
    try discriminate.
  - injection E as ->. destruct Hv as [->|?]; [reflexivity | contradiction].
  - apply IH. exact E.
Qed.

Lemma sorted_zn (l : list Z) (i j : Z) :
  Sorted Z.le l -> 0 <= i -> i <= j -> j < len l -> zn l i <= zn l j.
Proof.
  intros Hs. apply Sorted_StronglySorted in Hs; [|intros x y z; lia].
  revert i j. induction Hs as [|x l Hs IH Hall]; intros i j Hi Hij Hj.
  - unfold len in Hj; simpl in Hj; lia.
  - unfold zn, len in *. simpl length in Hj.
    destruct (Z.to_nat i) as [|ni] eqn:Ei, (Z.to_nat j) as [|nj] eqn:Ej; simpl.
    + lia.
    + rewrite Forall_forall in Hall. apply Hall. apply nth_In. lia.
    + lia.
    + specialize (IH (Z.of_nat ni) (Z.of_nat nj)).
      rewrite !Nat2Z.id in IH. apply IH; lia.
Qed.

(** Two reciprocal nearest pairs over sorted arrays do not cross. *)
Lemma no_crossing (a p : list Z) (i i' j j' : Z) :
  Sorted Z.le a -> Sorted Z.le p ->
  0 <= i -> i < i' -> i' < len a ->
  is_nearest p (zn a i) j -> is_nearest p (zn a i') j' ->
  is_nearest a (zn p j) i -> is_nearest a (zn p j') i' ->
  j < j'.
Proof.
  intros Sa Sp Hi Hii Hi' (Hj & Hjlt & Hjle) (Hj' & Hj'lt & Hj'le)
         (_ & Hilt & Hile) (_ & Hi'lt & Hi'le).
  destruct (Z.lt_trichotomy j j') as [?|[->|Hgt]]; [assumption| |].
  - specialize (Hi'lt i). specialize (Hile i'). lia.
  - exfalso.
    pose proof (sorted_zn a i i' Sa) as Ha.
    pose proof (sorted_zn p j' j Sp) as Hp.
    specialize (Hjlt j'). specialize (Hj'le j).
    specialize (Hile i'). specialize (Hi'lt i).
    lia.
Qed.

(** *** Masks, positions and values *)

Lemma compress_map_filter {A : Type} (f : A -> bool) (l : list A) :
  Np.compress l (map f l) = filter f l.
Proof.
  induction l as [|x l IH]; simpl; [reflexivity|]. rewrite IH. reflexivity.
Qed.

Lemma argwhere_from_In (m : list bool) (k i : Z) :
  k <= i -> nth_error m (Z.to_nat (i - k)) = Some true ->
  In i (Np.argwhere_from k m).
Proof.
  revert k; induction m as [|b m IH]; intros k Hi H.
  - destruct (Z.to_nat (i - k)); discriminate.
  - simpl. destruct (Z.eq_dec i k) as [->|Hne].
    + replace (k - k) with 0 in H by lia. simpl in H. injection H as ->.
      left; reflexivity.
    + assert (Hin : In i (Np.argwhere_from (k + 1) m)).
      { apply IH; [lia|].
        replace (Z.to_nat (i - k)) with (S (Z.to_nat (i - (k + 1)))) in H by lia.
        exact H. }
      destruct b; [right|]; exact Hin.
Qed.

Lemma argwhere_from_sorted (m : list bool) (k : Z) :
  StronglySorted Z.lt (Np.argwhere_from k m).
Proof.
  revert k; induction m as [|b m IH]; intros k; simpl; [constructor|].
  destruct b; [|apply IH]. constructor; [apply IH|].
  apply Forall_forall. intros i Hi. apply argwhere_from_spec in Hi. lia.
Qed.

Lemma valid_pos_In (ptr : list Z) (i : Z) :
  In i (valid_pos ptr) <-> 0 <= i < len ptr /\ UNMATCHED < zn ptr i.
Proof.
  unfold valid_pos. split.
  - intros H. apply argwhere_gt_unmatched in H as (Hi & v & E & Hv).
    split; [exact Hi|]. apply zn_nth_error in E as [-> _]; [exact Hv | lia].
  - intros [Hi Hv]. apply argwhere_from_In; [lia|].
    replace (i - 0) with i by lia. unfold gt_unmatched.
    rewrite nth_error_map, (nth_error_zn ptr i Hi). simpl.
    f_equal. apply Z.ltb_lt. exact Hv.
Qed.

Lemma compress_argwhere_from (l : list Z) (m : list bool) (k : Z) :
  length l = length m ->
  Np.compress l m = map (fun i => zn l (i - k)) (Np.argwhere_from k m).
Proof.
  revert m k; induction l as [|x l IH]; intros [|b m] k Hlen; simpl in *;
    try reflexivity; try discriminate.
  assert (Htl : Np.compress l m =
                map (fun i => zn (x :: l) (i - k)) (Np.argwhere_from (k + 1) m)).
  { rewrite (IH m (k + 1)) by lia. apply map_ext_in. intros i Hi.
    apply argwhere_from_spec in Hi as [Hi _]. unfold zn.
    replace (Z.to_nat (i - k)) with (S (Z.to_nat (i - (k + 1)))) by lia.
    reflexivity. }
  destruct b; simpl; rewrite Htl; [|reflexivity].
  f_equal. replace (k - k) with 0 by lia. reflexivity.
Qed.

Lemma compress_argwhere (l : list Z) (m : list bool) :
  length l = length m -> Np.compress l m = map (zn l) (Np.argwhere m).
Proof.
  intros H. rewrite (compress_argwhere_from l m 0 H). apply map_ext.
  intros i. f_equal. lia.
Qed.

Lemma valid_vals_map (ptr : list Z) : valid_vals ptr = map (zn ptr) (valid_pos ptr).
Proof.
  apply compress_argwhere. unfold gt_unmatched. rewrite length_map. reflexivity.
Qed.

Lemma StronglySorted_map_mono (f : Z -> Z) (l : list Z) :
  StronglySorted Z.lt l ->
  (forall x y, In x l -> In y l -> x < y -> f x < f y) ->
  StronglySorted Z.lt (map f l).
Proof.
  induction 1 as [|x l Hs IH Hall]; intros Hf; simpl; constructor.
  - apply IH. intros u v Hu Hv. apply Hf; right; assumption.
  - apply Forall_forall. intros y Hy. apply in_map_iff in Hy as (z & <- & Hz).
    rewrite Forall_forall in Hall.
    apply Hf; [left; reflexivity | right; exact Hz | apply Hall; exact Hz].
Qed.

Lemma sorted_lt_ext (l1 l2 : list Z) :
  StronglySorted Z.lt l1 -> StronglySorted Z.lt l2 ->
  (forall x, In x l1 <-> In x l2) -> l1 = l2.
Proof.
  intros H1; revert l2; induction H1 as [|x l1 Hs1 IH Hall1]; intros l2 H2 Heq.
  - destruct l2 as [|y l2]; [reflexivity|].
    destruct (proj2 (Heq y)); left; reflexivity.
  - destruct H2 as [|y l2 Hs2 Hall2].
    + destruct (proj1 (Heq x)); left; reflexivity.
    + rewrite Forall_forall in Hall1, Hall2.
      assert (Hxy : x = y).
      { destruct (proj1 (Heq x) (or_introl eq_refl)) as [E|Hx]; [auto|].
        destruct (proj2 (Heq y) (or_introl eq_refl)) as [E|Hy]; [auto|].
        specialize (Hall1 y Hy). specialize (Hall2 x Hx). lia. }
      subst y. f_equal. apply IH; [exact Hs2|].
      intros z. split; intros Hz.
      * destruct (proj1 (Heq z) (or_intror Hz)) as [E|Hz']; [|exact Hz'].
        specialize (Hall1 z Hz). lia.
      * destruct (proj2 (Heq z) (or_intror Hz)) as [E|Hz']; [|exact Hz'].
        specialize (Hall2 z Hz). lia.
Qed.

(** *** Reciprocal pointers over sorted arrays pair by position *)

Lemma well_matched_sym (a p a2b b2a : list Z) :
  well_matched a p a2b b2a -> well_matched p a b2a a2b.
Proof.
  unfold well_matched, reciprocal. intuition.
Qed.

Lemma points_of_valid_pos (ptr : list Z) (i : Z) :
  In i (valid_pos ptr) -> points ptr i (zn ptr i).
Proof.
  intros H. apply valid_pos_In in H as [Hi Hv].
  split; [lia|]. split; [apply nth_error_zn; exact Hi|].
  unfold UNMATCHED in *. lia.
Qed.

Lemma well_matched_aligned_half (a p a2b b2a : list Z) :
  Sorted Z.le a -> Sorted Z.le p -> well_matched a p a2b b2a ->
  valid_vals a2b = valid_pos b2a.
Proof.
  intros Sa Sp (La & Lb & Na & Nb & Rab & Rba).
  apply sorted_lt_ext.
  - rewrite valid_vals_map. apply StronglySorted_map_mono.
    + apply argwhere_from_sorted.
    + intros i i' Hi Hi' Hlt.
      pose proof (proj1 (valid_pos_In _ _) Hi') as [Hr' _].
      pose proof (proj1 (valid_pos_In _ _) Hi) as [Hr _].
      apply points_of_valid_pos in Hi, Hi'.
      apply (no_crossing a p i i' (zn a2b i) (zn a2b i')); auto; try lia.
      * unfold len in *. lia.
  - apply argwhere_from_sorted.
  - intros j. split.
    + intros Hj. rewrite valid_vals_map in Hj.
      apply in_map_iff in Hj as (i & <- & Hi).
      apply points_of_valid_pos in Hi.
      pose proof (Rab _ _ Hi) as Hb.
      destruct (Nb _ _ Hb) as [Hi0 _].
      destruct Hb as (Hj0 & E & _).
      apply zn_nth_error in E as [E Hlen]; [|exact Hj0].
      apply valid_pos_In. split; [lia|]. rewrite E. unfold UNMATCHED. lia.
    + intros Hj. apply points_of_valid_pos in Hj.
      pose proof (Rba _ _ Hj) as Ha.
      destruct (Na _ _ Ha) as [Hj0 _].
      destruct Ha as (Hi0 & E & _).
      apply zn_nth_error in E as [E Hlen]; [|exact Hi0].
      rewrite valid_vals_map. apply in_map_iff.
      exists (zn b2a j). split; [exact E|].
      apply valid_pos_In. split; [lia|]. rewrite E. unfold UNMATCHED. lia.
Qed.

Lemma well_matched_aligned (a p a2b b2a : list Z) :
  Sorted Z.le a -> Sorted Z.le p -> well_matched a p a2b b2a ->
  valid_vals a2b = valid_pos b2a /\ valid_vals b2a = valid_pos a2b.
Proof.
  intros Sa Sp H. split.
  - apply (well_matched_aligned_half a p); assumption.
  - apply (well_matched_aligned_half p a); auto using well_matched_sym.
Qed.

Lemma well_matched_entries (a p a2b b2a : list Z) (v : Z) :
  well_matched a p a2b b2a -> In v a2b -> v = UNMATCHED \/ 0 <= v < len p.
Proof.
  intros (_ & _ & Na & _) Hv. apply In_nth_error in Hv as [k Hk].
  destruct (Z.eq_dec v UNMATCHED) as [?|Hne]; [left; assumption|right].
  apply (Na (Z.of_nat k) v). split; [lia|]. rewrite Nat2Z.id. auto.
Qed.

Lemma ne_gt_unmatched (n : Z) (ptr : list Z) :
  (forall v, In v ptr -> v = UNMATCHED \/ 0 <= v < n) ->
  ne_unmatched ptr = gt_unmatched ptr.
Proof.
  intros H. apply map_ext_in. intros v Hv.
  destruct (H v Hv) as [->|Hr]; [reflexivity|].
  unfold UNMATCHED.
  replace (v =? -999) with false by (symmetry; apply Z.eqb_neq; lia).
  symmetry. apply Z.ltb_lt. lia.
Qed.

Lemma filter_split_len (n : Z) (ptr : list Z) :
  (forall v, In v ptr -> v = UNMATCHED \/ 0 <= v < n) ->
  count_unmatched ptr + len (valid_vals ptr) = len ptr.
Proof.
  unfold count_unmatched, valid_vals, gt_unmatched.
  rewrite compress_map_filter.
  induction ptr as [|v ptr IH]; intros H; [reflexivity|].
  assert (IH' := IH (fun u Hu => H u (or_intror Hu))).
  unfold len in *. cbn [filter].
  destruct (H v (or_introl eq_refl)) as [->|Hr].
  - rewrite Z.eqb_refl. change (UNMATCHED <? UNMATCHED) with false.
    cbn [length]. lia.
  - unfold UNMATCHED in *.
    replace (v =? -999) with false by (symmetry; apply Z.eqb_neq; lia).
    replace (-999 <? v) with true by (symmetry; apply Z.ltb_lt; lia).
    cbn [length]. lia.
Qed.

Lemma zip_sub_map (f g : Z -> Z) (l : list Z) :
  Np.zip_sub (map f l) (map g l) = map (fun x => f x - g x) l.
Proof. induction l as [|x l IH]; simpl; [|rewrite IH]; reflexivity. Qed.

(** The timing differences of reciprocal pointers over sorted arrays are
    those of the pairs, in the order of the annotated events. *)
Lemma time_differences_well_matched (a p a2b b2a : list Z) :
  Sorted Z.le a -> Sorted Z.le p -> well_matched a p a2b b2a ->
  time_differences a p a2b b2a =
    Ok (map (fun i => zn p (zn a2b i) - zn a i) (valid_pos a2b)).
Proof.
  intros Sa Sp H. destruct (well_matched_aligned a p a2b b2a Sa Sp H) as [Hv _].
  destruct H as (La & Lb & _).
  unfold time_differences, Np.mask, gt_unmatched.
  rewrite !length_map, <- La, <- Lb, !Nat.eqb_refl. simpl.
  rewrite !compress_argwhere by (rewrite length_map; congruence).
  change (Np.argwhere (map (fun v => UNMATCHED <? v) b2a)) with (valid_pos b2a).
  change (Np.argwhere (map (fun v => UNMATCHED <? v) a2b)) with (valid_pos a2b).
  rewrite <- Hv, valid_vals_map, map_map.
  unfold Np.sub. rewrite !length_map, Nat.eqb_refl.
  rewrite (zip_sub_map (fun i => zn p (zn a2b i)) (zn a)). reflexivity.
Qed.

Lemma put_each_sorted (g : Z -> Z) (idxs l : list Z) :
  StronglySorted Z.lt idxs ->
  Forall (fun i => 0 <= i < len l) idxs ->
  exists l',
    Np.put_each l idxs (map g idxs) = Ok l' /\
    (forall i, In i idxs -> nth_error l' (Z.to_nat i) = Some (g i)) /\
    (forall k, ~ In (Z.of_nat k) idxs -> nth_error l' k = nth_error l k).
Proof.
  intros Hs; revert l; induction Hs as [|i r Hs IH Hall]; intros l Hr.
  - exists l. simpl. repeat split; auto. intros i [].
  - inversion Hr as [|? ? Hi Hr']; subst. simpl.
    unfold Np.setitem. rewrite norm_index_inrange by exact Hi. simpl.
    destruct (IH (Np.update l (Z.to_nat i) (g i))) as (l' & E & Hin & Hout).
    { unfold len in *. rewrite update_length. exact Hr'. }
    exists l'. split; [exact E|]. rewrite Forall_forall in Hall. split.
    + intros j [<-|Hj]; [|apply Hin; exact Hj].
      rewrite Hout.
      * rewrite update_nth_error, Nat.eqb_refl.
        replace (Nat.ltb (Z.to_nat i) (length l)) with true; [reflexivity|].
        symmetry. apply Nat.ltb_lt. unfold len in Hi. lia.
      * rewrite Z2Nat.id by lia. intros Hi'. specialize (Hall i Hi'). lia.
    + intros k Hk. rewrite Hout by (intros ?; apply Hk; right; assumption).
      rewrite update_nth_error.
      destruct (Nat.eqb k (Z.to_nat i)) eqn:Ek; [|reflexivity].
      apply Nat.eqb_eq in Ek. exfalso. apply Hk. left. lia.
Qed.

(** On reciprocal pointers over sorted arrays [MetricsGaitEvents] returns the
    counts of sentinel entries and aligns every matched annotated event with
    the sample of the predicted event it points to. *)
Lemma MetricsGaitEvents_well_matched (a p a2b b2a : list Z) :
  Sorted Z.le a -> Sorted Z.le p -> well_matched a p a2b b2a ->
  exists aligned,
    MetricsGaitEvents a p a2b b2a =
      Ok (count_unmatched a2b, count_unmatched b2a, aligned) /\
    length aligned = length a /\
    (forall i j, points a2b i j -> zn aligned i = zn p j) /\
    (forall i, 0 <= i < len a -> zn a2b i = UNMATCHED ->
               zn aligned i = UNMATCHED).
Proof.
  intros Sa Sp H.
  destruct (well_matched_aligned a p a2b b2a Sa Sp H) as [Hv _].
  pose proof (ne_gt_unmatched _ _ (fun v => well_matched_entries _ _ _ _ v H))
    as Ma.
  pose proof (ne_gt_unmatched _ _
                (fun v => well_matched_entries _ _ _ _ v (well_matched_sym _ _ _ _ H)))
    as Mb.
  destruct H as (La & Lb & Na & Nb & Rab & Rba).
  unfold MetricsGaitEvents, Np.mask.
  unfold eq_unmatched at 1 3. rewrite !length_map, !Nat.eqb_refl. simpl.
  rewrite Ma, Mb. unfold gt_unmatched at 1. rewrite length_map, <- Lb, Nat.eqb_refl.
  simpl.
  rewrite compress_argwhere by (unfold gt_unmatched; rewrite length_map; congruence).
  change (Np.argwhere (gt_unmatched b2a)) with (valid_pos b2a).
  change (Np.argwhere (gt_unmatched a2b)) with (valid_pos a2b).
  rewrite <- Hv, valid_vals_map, map_map.
  unfold Np.put_array. rewrite length_map, Nat.eqb_refl.
  destruct (put_each_sorted (fun i => zn p (zn a2b i)) (valid_pos a2b)
              (Np.full_like a UNMATCHED)) as (aligned & E & Hin & Hout).
  { apply argwhere_from_sorted. }
  { apply Forall_forall. intros i Hi. apply valid_pos_In in Hi as [Hi _].
    unfold len in *. rewrite full_like_length. lia. }
  rewrite E. simpl. exists aligned.
  unfold eq_unmatched. rewrite !compress_map_filter.
  split; [reflexivity|]. split.
  { apply put_each_length in E. rewrite E. apply full_like_length. }
  split.
  - intros i j Hp.
    assert (Hi : In i (valid_pos a2b)).
    { pose proof (Na _ _ Hp) as [Hj _]. destruct Hp as (Hi0 & En & _).
      apply zn_nth_error in En as [En Hl]; [|exact Hi0].
      apply valid_pos_In. split; [lia|]. rewrite En. unfold UNMATCHED. lia. }
    destruct Hp as (Hi0 & En & _).
    apply zn_nth_error in En as [En _]; [|exact Hi0].
    specialize (Hin i Hi). rewrite En in Hin.
    unfold zn at 1. apply nth_error_nth. exact Hin.
  - intros i Hi Hu.
    assert (Hni : ~ In (Z.of_nat (Z.to_nat i)) (valid_pos a2b)).
    { rewrite Z2Nat.id by lia. intros Hin'.
      apply valid_pos_In in Hin' as [_ Hgt]. rewrite Hu in Hgt. lia. }
    specialize (Hout _ Hni). unfold zn at 1. apply nth_error_nth.
    rewrite Hout. unfold Np.full_like. apply nth_error_repeat.
    unfold len in Hi. lia.
Qed.

(** *** The threshold step on pointers that pair by position *)

Lemma item_zn (l : list Z) (i : Z) : 0 <= i < len l -> Np.item l i = Ok (zn l i).
Proof.
  intros H. destruct (item_inrange l i H) as (v & E & Hn).
  apply zn_nth_error in Hn as [<- _]; [exact E | lia].
Qed.

Lemma setitem_inrange {A : Type} (l : list A) (i : Z) (v : A) :
  0 <= i < len l -> Np.setitem l i v = Ok (Np.update l (Z.to_nat i) v).
Proof.
  intros H. unfold Np.setitem. rewrite norm_index_inrange by exact H. reflexivity.
Qed.

Lemma zn_update (l : list Z) (n : nat) (v k : Z) :
  0 <= k < len l ->
  zn (Np.update l n v) k = if Nat.eqb (Z.to_nat k) n then v else zn l k.
Proof.
  intros Hk. unfold zn at 1. apply nth_error_nth.
  rewrite update_nth_error.
  destruct (Nat.eqb (Z.to_nat k) n) eqn:E.
  - apply Nat.eqb_eq in E. subst n.
    replace (Nat.ltb (Z.to_nat k) (length l)) with true; [reflexivity|].
    symmetry. apply Nat.ltb_lt. unfold len in Hk. lia.
  - apply nth_error_zn. exact Hk.
Qed.

Lemma relaxes_zn (l l' : list Z) (k : Z) :
  relaxes l l' -> 0 <= k < len l -> zn l' k = zn l k \/ zn l' k = UNMATCHED.
Proof.
  intros R Hk. unfold zn, len in *.
  assert (Hn : (Z.to_nat k < length l)%nat) by lia.
  revert Hn. generalize (Z.to_nat k). clear Hk.
  induction R as [|o v l l' Hv _ IH]; intros [|n] Hn; simpl in *;
    [lia | lia | exact Hv | apply IH; lia].
Qed.

Lemma relaxes_len (l l' : list Z) : relaxes l l' -> len l' = len l.
Proof. intros R. unfold len. rewrite (relaxes_length _ _ R). reflexivity. Qed.

Lemma update_len {A : Type} (l : list A) (n : nat) (v : A) :
  len (Np.update l n v) = len l.
Proof. unfold len. rewrite update_length. reflexivity. Qed.

(** The loop of lines 158-161 when entry [ti] of [indices_b2a] and of
    [indices_a2b] are the two ends of the pair of [time_diff[ti]]. *)
Lemma reject_loop (thr : Z) (td ia ib : list Z) (tis : list nat) :
  length ia = length td -> length ib = length td ->
  Forall (fun ti => (ti < length td)%nat) tis ->
  forall A B,
    Forall (fun v => 0 <= v < len B) ia ->
    Forall (fun v => 0 <= v < len A) ib ->
    exists A' B',
      foldM (reject_step thr td ia ib) tis (A, B) = Ok (A', B') /\
      relaxes A A' /\ relaxes B B' /\
      (forall ti, In ti tis -> thr < Z.abs (zn td (Z.of_nat ti)) ->
                  zn A' (zn ib (Z.of_nat ti)) = UNMATCHED /\
                  zn B' (zn ia (Z.of_nat ti)) = UNMATCHED) /\
      (forall k, 0 <= k < len A ->
                 zn A' k = zn A k \/
                 exists ti, In ti tis /\ thr < Z.abs (zn td (Z.of_nat ti)) /\
                            zn ib (Z.of_nat ti) = k) /\
      (forall k, 0 <= k < len B ->
                 zn B' k = zn B k \/
                 exists ti, In ti tis /\ thr < Z.abs (zn td (Z.of_nat ti)) /\
                            zn ia (Z.of_nat ti) = k).
Proof.
  intros Lia Lib Htis. induction Htis as [|ti tis Hti _ IH]; intros A B Ha Hb.
  - exists A, B. simpl. repeat split; auto using relaxes_refl.
    + contradiction.
    + contradiction.
  - assert (Rti : 0 <= Z.of_nat ti < len td) by (unfold len; lia).
    assert (Ri : 0 <= zn ib (Z.of_nat ti) < len A).
    { rewrite Forall_forall in Hb. apply Hb. unfold zn. apply nth_In.
      rewrite Nat2Z.id. lia. }
    assert (Rj : 0 <= zn ia (Z.of_nat ti) < len B).
    { rewrite Forall_forall in Ha. apply Ha. unfold zn. apply nth_In.
      rewrite Nat2Z.id. lia. }
    set (i := zn ib (Z.of_nat ti)) in *. set (j := zn ia (Z.of_nat ti)) in *.
    assert (Estep : reject_step thr td ia ib (A, B) ti =
                    Ok (if thr <? Z.abs (zn td (Z.of_nat ti))
                        then (Np.update A (Z.to_nat i) UNMATCHED,
                              Np.update B (Z.to_nat j) UNMATCHED)
                        else (A, B))).
    { unfold reject_step. rewrite item_zn by exact Rti. simpl.
      destruct (thr <? Z.abs (zn td (Z.of_nat ti))); [|reflexivity].
      rewrite item_zn by (unfold len in *; lia). simpl. fold i.
      rewrite setitem_inrange by exact Ri. simpl.
      rewrite item_zn by (unfold len in *; lia). simpl. fold j.
      rewrite setitem_inrange by exact Rj. reflexivity. }
    cbn [foldM]. rewrite Estep. cbn [bind].
    destruct (thr <? Z.abs (zn td (Z.of_nat ti))) eqn:Ex.
    + apply Z.ltb_lt in Ex.
      destruct (IH (Np.update A (Z.to_nat i) UNMATCHED)
                   (Np.update B (Z.to_nat j) UNMATCHED))
        as (A' & B' & E & RA & RB & HK & HA & HB);
        [rewrite update_len; exact Ha | rewrite update_len; exact Hb|].
      exists A', B'. split; [exact E|].
      split; [eapply relaxes_trans; [apply update_relaxes | exact RA]|].
      split; [eapply relaxes_trans; [apply update_relaxes | exact RB]|].
      split; [|split].
      * intros ti' [<-|Hin] Hex; [|apply HK; assumption]. fold i j. split.
        -- destruct (relaxes_zn _ _ i RA) as [Hz|Hz];
             [rewrite update_len; exact Ri | | exact Hz].
           rewrite Hz, zn_update, Nat.eqb_refl by exact Ri. reflexivity.
        -- destruct (relaxes_zn _ _ j RB) as [Hz|Hz];
             [rewrite update_len; exact Rj | | exact Hz].
           rewrite Hz, zn_update, Nat.eqb_refl by exact Rj. reflexivity.
      * intros k Hk. destruct (HA k) as [Hz|(ti' & Hin & Hex & Hz)];
          [rewrite update_len; exact Hk | |].
        -- rewrite zn_update in Hz by exact Hk.
           destruct (Nat.eqb (Z.to_nat k) (Z.to_nat i)) eqn:Ek.
           ++ right. exists ti. split; [left; reflexivity|].
              split; [exact Ex|]. apply Nat.eqb_eq in Ek. fold i. lia.
           ++ left. exact Hz.
        -- right. exists ti'. split; [right; exact Hin|]. split; assumption.
      * intros k Hk. destruct (HB k) as [Hz|(ti' & Hin & Hex & Hz)];
          [rewrite update_len; exact Hk | |].
        -- rewrite zn_update in Hz by exact Hk.
           destruct (Nat.eqb (Z.to_nat k) (Z.to_nat j)) eqn:Ek.
           ++ right. exists ti. split; [left; reflexivity|].
              split; [exact Ex|]. apply Nat.eqb_eq in Ek. fold j. lia.
           ++ left. exact Hz.
        -- right. exists ti'. split; [right; exact Hin|]. split; assumption.
    + apply Z.ltb_ge in Ex.
      destruct (IH A B Ha Hb) as (A' & B' & E & RA & RB & HK & HA & HB).
      exists A', B'. split; [exact E|]. split; [exact RA|]. split; [exact RB|].
      split; [|split].
      * intros ti' [<-|Hin] Hex; [lia | apply HK; assumption].
      * intros k Hk. destruct (HA k Hk) as [Hz|(ti' & Hin & Hex & Hz)];
          [left; exact Hz|].
        right. exists ti'. split; [right; exact Hin|]. split; assumption.
      * intros k Hk. destruct (HB k Hk) as [Hz|(ti' & Hin & Hex & Hz)];
          [left; exact Hz|].
        right. exists ti'. split; [right; exact Hin|]. split; assumption.
Qed.

Lemma nearest_relaxed_well_matched (a p a2b0 b2a0 a2b b2a : list Z) :
  nearest a p = Ok a2b0 -> nearest p a = Ok b2a0 ->
  relaxes a2b0 a2b -> relaxes b2a0 b2a -> reciprocal a2b b2a ->
  well_matched a p a2b b2a.
Proof.
  intros Ea Eb Ra Rb Hrec.
  assert (Hside : forall src dst ptr0 ptr i j,
             nearest src dst = Ok ptr0 -> relaxes ptr0 ptr -> points ptr i j ->
             is_nearest dst (zn src i) j).
  { intros src dst ptr0 ptr i j E R Hp.
    apply (relaxes_points _ _ _ _ R) in Hp as (Hi & En & _).
    apply zn_nth_error in En as [<- Hl]; [|exact Hi].
    apply nearest_spec; [exact E|].
    apply nearest_range in E as [_ E]. unfold len in *. lia. }
  pose proof (nearest_range _ _ _ Ea) as [_ La].
  pose proof (nearest_range _ _ _ Eb) as [_ Lb].
  split; [rewrite (relaxes_length _ _ Ra); exact La|].
  split; [rewrite (relaxes_length _ _ Rb); exact Lb|].
  split; [intros i j; apply (Hside a p a2b0 a2b); assumption|].
  split; [intros j i; apply (Hside p a b2a0 b2a); assumption|].
  exact Hrec.
Qed.

Lemma points_valid_pos (a p a2b b2a : list Z) (i j : Z) :
  well_matched a p a2b b2a -> points a2b i j ->
  In i (valid_pos a2b) /\ zn a2b i = j /\ 0 <= i < len a2b /\ 0 <= j < len p.
Proof.
  intros (_ & _ & Na & _) Hp. destruct (Na _ _ Hp) as [Hj _].
  destruct Hp as (Hi & En & _).
  apply zn_nth_error in En as [En Hl]; [|exact Hi].
  split; [|auto with zarith].
  apply valid_pos_In. split; [lia|]. rewrite En. unfold UNMATCHED. lia.
Qed.

Lemma points_of_zn (ptr : list Z) (i j : Z) :
  0 <= i < len ptr -> zn ptr i = j -> j <> UNMATCHED -> points ptr i j.
Proof.
  intros Hi E Hj. split; [lia|]. split; [|exact Hj].
  rewrite <- E. apply nth_error_zn. exact Hi.
Qed.

Lemma valid_vals_mask (ptr : list Z) :
  Np.mask ptr (gt_unmatched ptr) = Ok (valid_vals ptr).
Proof.
  unfold Np.mask, gt_unmatched. rewrite length_map, Nat.eqb_refl. reflexivity.
Qed.

Lemma zn_in_list (l : list Z) (x : Z) :
  In x l -> exists ti, (ti < length l)%nat /\ zn l (Z.of_nat ti) = x.
Proof.
  intros H. apply (In_nth _ _ 0) in H as (ti & Hlt & E).
  exists ti. split; [exact Hlt|]. unfold zn. rewrite Nat2Z.id. exact E.
Qed.

(** On reciprocal pointers over sorted arrays the threshold step does not
    raise, clears both ends of every pair beyond the threshold and nothing
    else. *)
Lemma reject_well_matched (a p : list Z) (thr : Z) (A0 B0 : list Z) :
  Sorted Z.le a -> Sorted Z.le p -> well_matched a p A0 B0 ->
  exists A1 B1,
    reject a p thr A0 B0 = Ok (A1, B1) /\
    relaxes A0 A1 /\ relaxes B0 B1 /\
    reciprocal A1 B1 /\
    (forall i j, points A1 i j -> Z.abs (zn p j - zn a i) <= thr) /\
    (forall i j, points A0 i j -> thr < Z.abs (zn p j - zn a i) ->
                 zn A1 i = UNMATCHED /\ zn B1 j = UNMATCHED).
Proof.
  intros Sa Sp WM.
  destruct (well_matched_aligned a p A0 B0 Sa Sp WM) as [HvA HvB].
  unfold reject.
  rewrite (time_differences_well_matched a p A0 B0 Sa Sp WM). cbn [bind].
  rewrite !valid_vals_mask. cbn [bind].
  set (I := valid_pos A0) in *.
  set (td := map (fun i => zn p (zn A0 i) - zn a i) I).
  assert (Ltd : length td = length I) by apply length_map.
  assert (Lia : length (valid_vals A0) = length td).
  { rewrite valid_vals_map. fold I. rewrite length_map. congruence. }
  assert (Lib : length (valid_vals B0) = length td) by (rewrite HvB; congruence).
  destruct (reject_loop thr td (valid_vals A0) (valid_vals B0)
              (rev (seq 0 (length td))) Lia Lib) with (A := A0) (B := B0)
    as (A1 & B1 & E & RA & RB & HK & HA & HB).
  { apply Forall_forall. intros ti Hti. apply in_rev, in_seq in Hti. lia. }
  { rewrite HvA. apply Forall_forall. intros v Hv.
    apply valid_pos_In in Hv. tauto. }
  { rewrite HvB. apply Forall_forall. intros v Hv.
    apply valid_pos_In in Hv. tauto. }
  exists A1, B1. split; [exact E|]. split; [exact RA|]. split; [exact RB|].
  (* the entries of the three local copies at a position of the loop *)
  assert (Hat : forall ti, (ti < length td)%nat ->
             let i := zn I (Z.of_nat ti) in
             In i I /\
             zn (valid_vals B0) (Z.of_nat ti) = i /\
             zn (valid_vals A0) (Z.of_nat ti) = zn A0 i /\
             zn td (Z.of_nat ti) = zn p (zn A0 i) - zn a i).
  { intros ti Hti i.
    assert (Hr : 0 <= Z.of_nat ti < len I) by (unfold len; lia).
    split; [unfold i, zn; apply nth_In; rewrite Nat2Z.id; lia|].
    split; [rewrite HvB; reflexivity|].
    split; [rewrite valid_vals_map; fold I; apply zn_map; exact Hr|].
    unfold td. rewrite (zn_map (fun i => zn p (zn A0 i) - zn a i)) by exact Hr.
    reflexivity. }
  assert (HK' : forall i, In i I -> thr < Z.abs (zn p (zn A0 i) - zn a i) ->
                  zn A1 i = UNMATCHED /\ zn B1 (zn A0 i) = UNMATCHED).
  { intros i Hi Hex. apply zn_in_list in Hi as (ti & Hti & Ei).
    destruct (Hat ti) as (_ & Eb & Ea & Ed); [lia|]. rewrite Ei in *.
    destruct (HK ti) as [H1 H2].
    - apply in_rev. rewrite rev_involutive. apply in_seq. lia.
    - rewrite Ed. exact Hex.
    - rewrite Eb in H1. rewrite Ea in H2. auto. }
  assert (HA' : forall k, 0 <= k < len A0 ->
                  zn A1 k = zn A0 k \/
                  (In k I /\ thr < Z.abs (zn p (zn A0 k) - zn a k))).
  { intros k Hk. destruct (HA k Hk) as [?|(ti & Hin & Hex & Ek)]; [left; auto|].
    right. apply in_rev, in_seq in Hin.
    destruct (Hat ti) as (Hi & Eb & _ & Ed); [lia|].
    rewrite Eb in Ek. rewrite Ek in *. rewrite Ed in Hex. auto. }
  assert (HB' : forall k, 0 <= k < len B0 ->
                  zn B1 k = zn B0 k \/
                  exists i, In i I /\ thr < Z.abs (zn p (zn A0 i) - zn a i) /\
                            zn A0 i = k).
  { intros k Hk. destruct (HB k Hk) as [?|(ti & Hin & Hex & Ek)]; [left; auto|].
    right. apply in_rev, in_seq in Hin.
    destruct (Hat ti) as (Hi & _ & Ea & Ed); [lia|].
    exists (zn I (Z.of_nat ti)). rewrite Ea in Ek. rewrite Ed in Hex. auto. }
  pose proof WM as (La & Lb & Na & Nb & Rab & Rba).
  assert (Hkeep : forall i j, points A1 i j ->
                    points A0 i j /\ In i I /\ zn A0 i = j /\ zn A1 i = j /\
                    ~ thr < Z.abs (zn p j - zn a i)).
  { intros i j H1. pose proof (relaxes_points _ _ _ _ RA H1) as H0.
    destruct (points_valid_pos _ _ _ _ _ _ WM H0) as (Hi & E0 & Hr & _).
    split; [exact H0|]. split; [exact Hi|]. split; [exact E0|].
    destruct H1 as (Hi0 & E1 & Hj).
    apply zn_nth_error in E1 as [E1 _]; [|exact Hi0].
    split; [exact E1|]. intros Hex.
    destruct (HK' i Hi) as [HU _]; [rewrite E0; exact Hex|]. congruence. }
  split; [split|split].
  - (* a surviving annotated pointer is answered *)
    intros i j H1. destruct (Hkeep i j H1) as (H0 & Hi & E0 & E1 & Hin).
    pose proof (Rab _ _ H0) as Hb0.
    destruct (points_valid_pos _ _ _ _ _ _ (well_matched_sym _ _ _ _ WM) Hb0)
      as (_ & Eb0 & Hrj & Hri).
    apply points_of_zn.
    + rewrite (relaxes_len _ _ RB). exact Hrj.
    + destruct (HB' j Hrj) as [->|(i' & Hi' & Hex & Ej)]; [exact Eb0|].
      exfalso. apply points_of_valid_pos in Hi'. rewrite Ej in Hi'.
      apply Rab in Hi'.
      destruct (points_valid_pos _ _ _ _ _ _ (well_matched_sym _ _ _ _ WM) Hi')
        as (_ & Eb' & _).
      assert (Hii : i' = i) by congruence. rewrite Hii in Hex.
      apply Hin. rewrite <- E0. exact Hex.
    + unfold UNMATCHED. lia.
  - (* a surviving predicted pointer is answered *)
    intros j i H1. pose proof (relaxes_points _ _ _ _ RB H1) as Hb0.
    pose proof (Rba _ _ Hb0) as H0.
    destruct (points_valid_pos _ _ _ _ _ _ WM H0) as (Hi & E0 & Hri & Hrj).
    destruct H1 as (Hj0 & E1 & _).
    apply zn_nth_error in E1 as [E1 _]; [|exact Hj0].
    apply points_of_zn.
    + rewrite (relaxes_len _ _ RA). exact Hri.
    + destruct (HA' i Hri) as [->|(_ & Hex)]; [exact E0|].
      exfalso. destruct (HK' i Hi Hex) as [_ HU]. rewrite E0 in HU.
      rewrite HU in E1. unfold UNMATCHED in E1. lia.
    + unfold UNMATCHED. lia.
  - intros i j H1. destruct (Hkeep i j H1) as (_ & _ & _ & _ & Hin). lia.
  - intros i j H0 Hex.
    destruct (points_valid_pos _ _ _ _ _ _ WM H0) as (Hi & E0 & _).
    destruct (HK' i Hi) as [H1 H2]; [rewrite E0; exact Hex|].
    rewrite E0 in H2. auto.
Qed.

(** X9. On sorted arrays on which lines 114-150 leave reciprocal pointers,
    [compare_events] and [MetricsGaitEvents] return, and their results have
    the properties the matching is meant to have: the pointers returned are
    reciprocal, every pair returned is within the threshold, every candidate
    pair beyond it is cleared on both sides, the timing differences are those
    of the pairs, the counts add up, and every matched annotated event is
    aligned with the sample of its predicted event. *)
Theorem compare_events_sound_on_reciprocal :
  forall (a p : list Z) (thr : Z) (A0 B0 : list Z),
    Sorted Z.le a -> Sorted Z.le p -> a <> [] -> p <> [] ->
    candidates a p = Ok (A0, B0) ->
    reciprocal A0 B0 ->
    exists a2b b2a td aligned,
      compare_events a p thr = Ok (a2b, b2a, td) /\
      MetricsGaitEvents a p a2b b2a =
        Ok (count_unmatched a2b, count_unmatched b2a, aligned) /\
      reciprocal a2b b2a /\
      (forall i j, points a2b i j -> Z.abs (zn p j - zn a i) <= thr) /\
      (forall i j, points A0 i j -> thr < Z.abs (zn p j - zn a i) ->
                   zn a2b i = UNMATCHED /\ zn b2a j = UNMATCHED) /\
      td = map (fun i => zn p (zn a2b i) - zn a i) (valid_pos a2b) /\
      Forall (fun d => Z.abs d <= thr) td /\
      count_unmatched a2b + len td = len a /\
      count_unmatched b2a + len td = len p /\
      length aligned = length a /\
      (forall i j, points a2b i j -> zn aligned i = zn p j) /\
      (forall i, 0 <= i < len a -> zn a2b i = UNMATCHED ->
                 zn aligned i = UNMATCHED).
Proof.
  intros a p thr A0 B0 Sa Sp Ha Hp Hc Hrec.
  destruct (candidates_relaxes _ _ _ _ Hc) as (a2b0 & b2a0 & Ea & Eb & Ra & Rb).
  pose proof (nearest_relaxed_well_matched _ _ _ _ _ _ Ea Eb Ra Rb Hrec) as WM0.
  destruct (reject_well_matched a p thr A0 B0 Sa Sp WM0)
    as (A1 & B1 & Er & RA & RB & Hrec1 & Hthr & Hrej).
  assert (WM1 : well_matched a p A1 B1).
  { apply (nearest_relaxed_well_matched a p a2b0 b2a0); auto;
      eapply relaxes_trans; eauto. }
  pose proof (time_differences_well_matched a p A1 B1 Sa Sp WM1) as Etd.
  destruct (MetricsGaitEvents_well_matched a p A1 B1 Sa Sp WM1)
    as (aligned & Em & Hlen & Hal & Hun).
  destruct (well_matched_aligned a p A1 B1 Sa Sp WM1) as [_ HvB].
  exists A1, B1, (map (fun i => zn p (zn A1 i) - zn a i) (valid_pos A1)), aligned.
  split.
  { rewrite compare_events_general by assumption.
    rewrite Hc. cbn [bind]. rewrite Er. cbn [bind]. rewrite Etd. reflexivity. }
  split; [exact Em|]. split; [exact Hrec1|]. split; [exact Hthr|].
  split; [exact Hrej|]. split; [reflexivity|].
  split.
  { apply Forall_forall. intros d Hd. apply in_map_iff in Hd as (i & <- & Hi).
    apply Hthr. apply points_of_valid_pos. exact Hi. }
  assert (Lv : len (map (fun i => zn p (zn A1 i) - zn a i) (valid_pos A1)) =
               len (valid_pos A1)) by apply len_map.
  pose proof WM1 as (La & Lb & _).
  split; [|split].
  - rewrite Lv. replace (len a) with (len A1) by (unfold len; congruence).
    rewrite <- (filter_split_len (len p) A1)
      by (intros v; apply (well_matched_entries a p A1 B1); exact WM1).
    rewrite valid_vals_map, len_map. reflexivity.
  - rewrite Lv. replace (len p) with (len B1) by (unfold len; congruence).
    rewrite <- (filter_split_len (len a) B1)
      by (intros v; apply (well_matched_entries p a B1 A1);
          apply well_matched_sym; exact WM1).
    rewrite HvB. reflexivity.
  - split; [exact Hlen|]. split; [exact Hal | exact Hun].
Qed.

Lemma reciprocal_scenario : reciprocal [0; UNMATCHED] [0; UNMATCHED].
Proof.
  assert (H : forall i j, points [0; UNMATCHED] i j -> i = 0 /\ j = 0).
  { intros i j (Hi & E & Hj).
    destruct (Z.to_nat i) as [|[|[|n]]] eqn:Ei; simpl in E;
      try discriminate; injection E as <-; [lia | contradiction]. }
  split; intros i j Hp; destruct (H _ _ Hp) as [-> ->]; exact Hp.
Defined.

Lemma compare_events_sound_on_reciprocal_witness :
  Sorted Z.le [50; 150] /\ Sorted Z.le [52; 300] /\
  candidates [50; 150] [52; 300] = Ok ([0; UNMATCHED], [0; UNMATCHED]) /\
  reciprocal [0; UNMATCHED] [0; UNMATCHED] /\
  exists a2b b2a td aligned,
    compare_events [50; 150] [52; 300] 20 = Ok (a2b, b2a, td) /\
    MetricsGaitEvents [50; 150] [52; 300] a2b b2a =
      Ok (count_unmatched a2b, count_unmatched b2a, aligned) /\
    reciprocal a2b b2a /\
    (forall i j, points a2b i j ->
                 Z.abs (zn [52; 300] j - zn [50; 150] i) <= 20) /\
    (forall i j, points [0; UNMATCHED] i j ->
                 20 < Z.abs (zn [52; 300] j - zn [50; 150] i) ->
                 zn a2b i = UNMATCHED /\ zn b2a j = UNMATCHED) /\
    td = map (fun i => zn [52; 300] (zn a2b i) - zn [50; 150] i) (valid_pos a2b) /\
    Forall (fun d => Z.abs d <= 20) td /\
    count_unmatched a2b + len td = len [50; 150] /\
    count_unmatched b2a + len td = len [52; 300] /\
    length aligned = length [50; 150] /\
    (forall i j, points a2b i j -> zn aligned i = zn [52; 300] j) /\
    (forall i, 0 <= i < len [50; 150] -> zn a2b i = UNMATCHED ->
               zn aligned i = UNMATCHED).
Proof.
  assert (Sa : Sorted Z.le [50; 150]) by (repeat constructor; lia).
  assert (Sp : Sorted Z.le [52; 300]) by (repeat constructor; lia).
  split; [exact Sa|]. split; [exact Sp|]. split; [reflexivity|].
  split; [exact reciprocal_scenario|].
  refine (compare_events_sound_on_reciprocal [50; 150] [52; 300] 20
            [0; UNMATCHED] [0; UNMATCHED] Sa Sp _ _ eq_refl reciprocal_scenario);
    discriminate.
Defined.

(** ** MetricsGaitEvents on the output of compare_events *)

Lemma points_repeat_unmatched (n : nat) (i j : Z) :
  ~ points (repeat UNMATCHED n) i j.
Proof.
  intros (_ & E & Hj). apply nth_error_In, repeat_spec in E. contradiction.
Qed.

Lemma points_nil (i j : Z) : ~ points [] i j.
Proof. intros (_ & E & _). destruct (Z.to_nat i); discriminate. Qed.

Lemma well_matched_no_points (a p a2b b2a : list Z) :
  length a2b = length a -> length b2a = length p ->
  (forall i j, ~ points a2b i j) -> (forall j i, ~ points b2a j i) ->
  well_matched a p a2b b2a.
Proof.
  intros La Lb Ha Hb. unfold well_matched, reciprocal.
  split; [exact La|]. split; [exact Lb|].
  split; [intros i j H; destruct (Ha _ _ H)|].
  split; [intros j i H; destruct (Hb _ _ H)|].
  split; [intros i j H; destruct (Ha _ _ H) | intros j i H; destruct (Hb _ _ H)].
Qed.

(** Reciprocal arrays returned by [compare_events] hold nearest-candidate
    pointers only. *)
Lemma compare_events_well_matched (a p : list Z) (thr : Z) (a2b b2a td : list Z) :
  compare_events a p thr = Ok (a2b, b2a, td) -> reciprocal a2b b2a ->
  well_matched a p a2b b2a.
Proof.
  intros H Hrec.
  destruct (compare_events_lengths _ _ _ _ _ _ H) as [La Lb].
  destruct a as [|x a], p as [|y p].
  - injection H as <- <- _.
    apply well_matched_no_points;
      [reflexivity | reflexivity | apply points_nil | apply points_nil].
  - injection H as <- <- _. unfold Np.full_like.
    apply well_matched_no_points;
      [reflexivity | apply repeat_length
      | apply points_nil | intros j i; apply points_repeat_unmatched].
  - injection H as <- <- _. unfold Np.full_like.
    apply well_matched_no_points;
      [apply repeat_length | reflexivity
      | intros i j; apply points_repeat_unmatched | apply points_nil].
  - apply compare_events_relaxes in H as (a2b0 & b2a0 & Ea & Eb & Ra & Rb);
      try discriminate.
    eapply nearest_relaxed_well_matched; eauto.
Qed.

(** C6. For sorted arrays and a correspondence returned by [compare_events]
    whose pointers answer each other, [MetricsGaitEvents] returns aligned
    predictions of the length of the annotated array: an annotated event that
    points to predicted event [j] carries the sample of [j], and an annotated
    event whose pointer is the sentinel carries the sentinel. *)
Theorem MetricsGaitEvents_aligned :
  forall (a p : list Z) (thr : Z) (a2b b2a td : list Z),
    Sorted Z.le a -> Sorted Z.le p ->
    compare_events a p thr = Ok (a2b, b2a, td) ->
    reciprocal a2b b2a ->
    exists missed extra aligned,
      MetricsGaitEvents a p a2b b2a = Ok (missed, extra, aligned) /\
      length aligned = length a /\
      (forall i j, points a2b i j -> zn aligned i = zn p j) /\
      (forall i, 0 <= i < len a -> zn a2b i = UNMATCHED ->
                 zn aligned i = UNMATCHED).
Proof.
  intros a p thr a2b b2a td Sa Sp H Hrec.
  pose proof (compare_events_well_matched _ _ _ _ _ _ H Hrec) as WM.
  destruct (MetricsGaitEvents_well_matched a p a2b b2a Sa Sp WM)
    as (aligned & E & Hlen & Hal & Hun).
  exists (count_unmatched a2b), (count_unmatched b2a), aligned. auto.
Qed.

Lemma MetricsGaitEvents_aligned_witness :
  Sorted Z.le [50; 150] /\ Sorted Z.le [52; 300] /\
  compare_events [50; 150] [52; 300] 20 =
    Ok ([0; UNMATCHED], [0; UNMATCHED], [2]) /\
  reciprocal [0; UNMATCHED] [0; UNMATCHED] /\
  exists missed extra aligned,
    MetricsGaitEvents [50; 150] [52; 300] [0; UNMATCHED] [0; UNMATCHED] =
      Ok (missed, extra, aligned) /\
    length aligned = length [50; 150] /\
    (forall i j, points [0; UNMATCHED] i j ->
                 zn aligned i = zn [52; 300] j) /\
    (forall i, 0 <= i < len [50; 150] -> zn [0; UNMATCHED] i = UNMATCHED ->
               zn aligned i = UNMATCHED).
Proof.
  assert (Sa : Sorted Z.le [50; 150]) by (repeat constructor; lia).
  assert (Sp : Sorted Z.le [52; 300]) by (repeat constructor; lia).
  split; [exact Sa|]. split; [exact Sp|]. split; [reflexivity|].
  split; [exact reciprocal_scenario|].
  exact (MetricsGaitEvents_aligned [50; 150] [52; 300] 20
           [0; UNMATCHED] [0; UNMATCHED] [2] Sa Sp eq_refl reciprocal_scenario).
Defined.

(** ** The many-to-one resolution (lines 124-138) *)

Lemma relaxes_nth_error (l l' : list Z) (k : nat) (v : Z) :
  relaxes l l' -> nth_error l' k = Some v -> v <> UNMATCHED ->
  nth_error l k = Some v.
Proof.
  intros R; revert k; induction R as [|o w l l' Hw _ IH]; intros [|k] E Hv;
    simpl in *; try discriminate.
  - injection E as ->. destruct Hw as [->|?]; [reflexivity | contradiction].
  - apply IH; assumption.
Qed.

Lemma relaxes_keeps_unmatched (l l' : list Z) (k : nat) :
  relaxes l l' -> nth_error l k = Some UNMATCHED ->
  nth_error l' k = Some UNMATCHED.
Proof.
  intros R; revert k; induction R as [|o w l l' Hw _ IH]; intros [|k] E;
    simpl in *; try discriminate.
  - injection E as ->. destruct Hw as [->| ->]; reflexivity.
  - apply IH; assumption.
Qed.

Lemma setitem_written (l l' : list Z) (i : Z) :
  0 <= i -> Np.setitem l i UNMATCHED = Ok l' ->
  nth_error l' (Z.to_nat i) = Some UNMATCHED.
Proof.
  intros Hi H. unfold Np.setitem, Np.norm_index in H.
  destruct ((0 <=? i) && (i <? len l)) eqn:E1.
  - simpl in H. injection H as <-. apply andb_prop in E1 as [_ E1].
    rewrite update_nth_error, Nat.eqb_refl.
    replace (Nat.ltb (Z.to_nat i) (length l)) with true; [reflexivity|].
    symmetry. apply Nat.ltb_lt. unfold len in E1. lia.
  - destruct ((- len l <=? i) && (i <? 0)) eqn:E2; [|discriminate].
    apply andb_prop in E2 as [_ E2]. lia.
Qed.

Lemma put_written (idxs l l' : list Z) (i : Z) :
  Forall (fun k => 0 <= k) idxs -> Np.put l idxs UNMATCHED = Ok l' ->
  In i idxs -> nth_error l' (Z.to_nat i) = Some UNMATCHED.
Proof.
  revert l; induction idxs as [|k r IH]; simpl; intros l Hpos H Hi;
    [contradiction|].
  inversion Hpos as [|? ? Hk Hr]; subst. inv_bind H.
  destruct Hi as [->|Hi]; [|eapply IH; eauto].
  apply (relaxes_keeps_unmatched x); [eapply put_relaxes; eauto|].
  eapply setitem_written; eauto.
Qed.

Lemma insert_unique_complete (x y : Z) (l : list Z) :
  y = x \/ In y l -> In y (Np.insert_unique x l).
Proof.
  induction l as [|z r IH]; simpl.
  - intros [->|[]]. left; reflexivity.
  - destruct (x <? z) eqn:E1; [simpl; intuition congruence|].
    destruct (x =? z) eqn:E2.
    + apply Z.eqb_eq in E2. subst z. simpl. intuition congruence.
    + simpl. intros [->|[->|H]]; auto.
Qed.

Lemma unique_complete (y : Z) (l : list Z) : In y l -> In y (Np.unique l).
Proof.
  induction l as [|x r IH]; simpl; [auto|].
  intros [->|H]; apply insert_unique_complete; auto.
Qed.

Lemma setdiff1d_complete (y : Z) (ar1 ar2 : list Z) :
  In y ar1 -> ~ In y ar2 -> In y (Np.setdiff1d ar1 ar2).
Proof.
  intros H1 H2. unfold Np.setdiff1d. apply unique_complete, filter_In.
  split; [exact H1|]. apply negb_true_iff.
  destruct (existsb (Z.eqb y) ar2) eqn:E; [|reflexivity].
  apply existsb_exists in E as (z & Hz & Ez). apply Z.eqb_eq in Ez.
  subst z. contradiction.
Qed.

Lemma argwhere_eq_In (ptr : list Z) (u : Z) (k : nat) :
  nth_error ptr k = Some u ->
  In (Z.of_nat k) (Np.argwhere (map (fun v => v =? u) ptr)).
Proof.
  intros E. apply argwhere_from_In; [lia|].
  replace (Z.of_nat k - 0) with (Z.of_nat k) by lia.
  rewrite Nat2Z.id, nth_error_map, E. simpl. rewrite Z.eqb_refl. reflexivity.
Qed.

Lemma sorted_lt_short (l : list Z) (x y : Z) :
  StronglySorted Z.lt l -> (length l <= 1)%nat -> In x l -> In y l -> x = y.
Proof.
  intros _ Hlen Hx Hy. destruct l as [|a [|b l]]; simpl in *;
    [contradiction| |lia].
  destruct Hx as [<-|[]], Hy as [<-|[]]. reflexivity.
Qed.

(** After the iteration for [u], at most one event points to [u]. *)
Lemma resolve_step_at_most_one (other ptr ptr' : list Z) (u : Z) (k k' : nat) :
  resolve_step other ptr u = Ok ptr' -> u <> UNMATCHED ->
  nth_error ptr' k = Some u -> nth_error ptr' k' = Some u -> k = k'.
Proof.
  intros H Hu Ek Ek'.
  pose proof (resolve_step_relaxes _ _ _ _ H) as R.
  pose proof (argwhere_eq_In _ _ _ (relaxes_nth_error _ _ _ _ R Ek Hu)) as Ik.
  pose proof (argwhere_eq_In _ _ _ (relaxes_nth_error _ _ _ _ R Ek' Hu)) as Ik'.
  unfold resolve_step in H.
  destruct (1 <? len (Np.argwhere (map (fun v => v =? u) ptr))) eqn:Hn.
  - inv_bind H.
    assert (Hback : forall n, nth_error ptr' n = Some u ->
                      In (Z.of_nat n) (Np.argwhere (map (fun v => v =? u) ptr)) ->
                      Z.of_nat n = x).
    { intros n En In'. destruct (Z.eq_dec (Z.of_nat n) x) as [?|Hne]; [assumption|].
      exfalso.
      assert (Hin : In (Z.of_nat n)
                      (Np.setdiff1d (Np.argwhere (map (fun v => v =? u) ptr)) [x])).
      { apply setdiff1d_complete; [exact In'|]. intros [?|[]]. congruence. }
      apply (put_written _ ptr ptr') in Hin;
        [|apply Forall_forall; intros z Hz;
          apply setdiff1d_In, argwhere_spec in Hz; lia | exact H].
      rewrite Nat2Z.id in Hin. congruence. }
    apply Hback in Ik, Ik'; try assumption. lia.
  - apply Z.ltb_ge in Hn.
    assert (E : Z.of_nat k = Z.of_nat k').
    { apply (sorted_lt_short (Np.argwhere (map (fun v => v =? u) ptr)));
        [apply argwhere_from_sorted | unfold len in Hn; lia | | ]; assumption. }
    lia.
Qed.

Lemma resolve_loop_at_most_one (other : list Z) (us : list Z) :
  forall ptr ptr' u k k',
    foldM (resolve_step other) us ptr = Ok ptr' ->
    In u us -> u <> UNMATCHED ->
    nth_error ptr' k = Some u -> nth_error ptr' k' = Some u -> k = k'.
Proof.
  induction us as [|v us IH]; intros ptr ptr' u k k' H Hin Hu Ek Ek';
    [contradiction|].
  simpl in H. inv_bind H. destruct Hin as [->|Hin]; [|eapply IH; eauto].
  assert (R : relaxes x ptr').
  { revert H. apply (foldM_inv (relaxes x)); [|apply relaxes_refl].
    intros s w s' Hs _ Hstep. eapply relaxes_trans; [exact Hs|].
    eapply resolve_step_relaxes; eauto. }
  eapply resolve_step_at_most_one; eauto using relaxes_nth_error.
Qed.

(** After the loop no two events point to the same event. *)
Lemma resolve_one_to_one (ptr other ptr' : list Z) :
  resolve ptr other = Ok ptr' -> one_to_one ptr'.
Proof.
  intros H i i' j (Hi & E & Hj) (Hi' & E' & _).
  pose proof (resolve_relaxes _ _ _ H) as R.
  assert (Hin : In j (Np.unique ptr)).
  { apply unique_complete. eapply nth_error_In.
    eapply relaxes_nth_error; eauto. }
  pose proof (resolve_loop_at_most_one other _ _ _ _ _ _ H Hin Hj E E'). lia.
Qed.

Lemma relaxes_one_to_one (l l' : list Z) :
  relaxes l l' -> one_to_one l -> one_to_one l'.
Proof.
  intros R H i i' j Hp Hp'. apply (H i i' j); eapply relaxes_points; eauto.
Qed.

Lemma candidates_stages (annotated predicted A B : list Z) :
  candidates annotated predicted = Ok (A, B) ->
  exists a2b0 b2a0 a2b1 b2a1 a2b2,
    nearest annotated predicted = Ok a2b0 /\
    nearest predicted annotated = Ok b2a0 /\
    resolve a2b0 b2a0 = Ok a2b1 /\
    resolve b2a0 a2b1 = Ok b2a1 /\
    prune a2b1 b2a1 (valid_pos a2b1) = Ok a2b2 /\
    prune b2a1 a2b2 (valid_pos b2a1) = Ok B /\
    prune a2b2 B (valid_pos a2b2) = Ok A.
Proof.
  unfold candidates; intros H.
  inv_bind H. inv_bind H. inv_bind H. inv_bind H. inv_bind H. inv_bind H.
  inv_bind H. injection H as <- <-.
  exists x, x0, x1, x2, x3. repeat split; assumption.
Qed.

Lemma one_to_one_no_points (ptr : list Z) :
  (forall i j, ~ points ptr i j) -> one_to_one ptr.
Proof. intros H i i' j Hp. destruct (H _ _ Hp). Qed.

(** X1. Whatever [compare_events] returns, no two annotated events point to
    the same predicted event and no two predicted events point to the same
    annotated event: the loops of lines 124-138 leave at most one pointer to
    each event, and every later step only clears pointers. *)
Theorem compare_events_one_to_one :
  forall (annotated predicted : list Z) (thr : Z) (a2b b2a td : list Z),
    compare_events annotated predicted thr = Ok (a2b, b2a, td) ->
    one_to_one a2b /\ one_to_one b2a.
Proof.
  intros a p thr a2b b2a td H.
  destruct a as [|x a], p as [|y p].
  - injection H as <- <- _. split; apply one_to_one_no_points, points_nil.
  - injection H as <- <- _. unfold Np.full_like.
    split; apply one_to_one_no_points;
      [apply points_nil | intros i j; apply points_repeat_unmatched].
  - injection H as <- <- _. unfold Np.full_like.
    split; apply one_to_one_no_points;
      [intros i j; apply points_repeat_unmatched | apply points_nil].
  - rewrite compare_events_general in H by discriminate.
    inv_bind H. destruct x0 as [A B]. inv_bind H. destruct x0 as [A1 B1].
    inv_bind H. injection H as <- <- _.
    apply reject_relaxes in E0 as [RA RB].
    apply candidates_stages in E
      as (a2b0 & b2a0 & a2b1 & b2a1 & a2b2 & _ & _ & Ea & Eb & P1 & P2 & P3).
    apply prune_relaxes in P1, P2, P3.
    split.
    + apply (relaxes_one_to_one a2b1);
        [eauto using relaxes_trans | eapply resolve_one_to_one; eauto].
    + apply (relaxes_one_to_one b2a1);
        [eauto using relaxes_trans | eapply resolve_one_to_one; eauto].
Qed.

Lemma compare_events_one_to_one_witness :
  compare_events [0; 20; 75; 150] [0; 45; 110] 20 =
    Ok ([0; UNMATCHED; UNMATCHED; 2], [0; UNMATCHED; UNMATCHED], [0; -150]) /\
  one_to_one [0; UNMATCHED; UNMATCHED; 2] /\
  one_to_one [0; UNMATCHED; UNMATCHED].
Proof.
  split; [reflexivity|].
  exact (compare_events_one_to_one [0; 20; 75; 150] [0; 45; 110] 20
           [0; UNMATCHED; UNMATCHED; 2] [0; UNMATCHED; UNMATCHED] [0; -150]
           eq_refl).
Defined.

(** ** The reciprocity passes (lines 139-150) *)

Lemma mapM_In {A B : Type} (f : A -> result B) (l : list A) (ys : list B) (x : A) :
  mapM f l = Ok ys -> In x l -> exists y, In y ys /\ f x = Ok y.
Proof.
  intros H. apply mapM_Ok_Forall2 in H.
  induction H as [|a b l ys Hab _ IH]; intros Hx; [contradiction|].
  destruct Hx as [->|Hx].
  - exists b. split; [left; reflexivity | exact Hab].
  - destruct (IH Hx) as (y & Hy & E). exists y. split; [right|]; assumption.
Qed.

Lemma Forall2_nth_error_l {A B : Type} (R : A -> B -> Prop) (l : list A)
  (l' : list B) (k : nat) (x : A) :
  Forall2 R l l' -> nth_error l k = Some x ->
  exists y, nth_error l' k = Some y /\ R x y.
Proof.
  intros H; revert k; induction H as [|a b l l' Hab _ IH]; intros [|k] E;
    simpl in *; try discriminate.
  - injection E as ->. exists b. auto.
  - apply IH. exact E.
Qed.

(** A pointer that survives a pass refers to an event whose own pointer is
    not the sentinel. *)
Lemma prune_answered (n : Z) (ptr other ptr' : list Z) (i j : Z) :
  Forall (ptr_ok n) ptr ->
  prune ptr other (valid_pos ptr) = Ok ptr' ->
  points ptr' i j ->
  exists i', points other j i'.
Proof.
  intros Hok H (Hi & E & Hj).
  pose proof (prune_relaxes _ _ _ _ H) as R.
  pose proof (relaxes_nth_error _ _ _ _ R E Hj) as E0.
  assert (Hj0 : 0 <= j).
  { rewrite Forall_forall in Hok. apply nth_error_In in E0.
    destruct (Hok j E0) as [?|?]; [contradiction | lia]. }
  assert (Hin : In i (valid_pos ptr)).
  { apply zn_nth_error in E0 as [E0 Hl]; [|exact Hi].
    apply valid_pos_In. split; [lia|]. rewrite E0. unfold UNMATCHED. lia. }
  unfold prune in H. inv_bind H. inv_bind H. inv_bind H.
  destruct (In_nth_error _ _ Hin) as [k Ek].
  apply mapM_Ok_Forall2 in E1, E2.
  destruct (Forall2_nth_error_l _ _ _ _ _ E1 Ek) as (tg & Etg & Htg).
  apply item_nonneg in Htg as [Htg _]; [|exact Hi].
  assert (tg = j) by congruence. subst tg.
  destruct (Forall2_nth_error_l _ _ _ _ _ E2 Etg) as (bk & Ebk & Hbk).
  apply item_nonneg in Hbk as [Hbk _]; [|exact Hj0].
  exists bk. split; [exact Hj0|]. split; [exact Hbk|].
  intros ->.
  assert (Hk : In (Z.of_nat k) (Np.argwhere (eq_unmatched x0))).
  { apply argwhere_from_In; [lia|].
    replace (Z.of_nat k - 0) with (Z.of_nat k) by lia.
    unfold eq_unmatched. rewrite Nat2Z.id, nth_error_map, Ebk. reflexivity. }
  destruct (mapM_In _ _ _ _ E3 Hk) as (v & Hv & Ev).
  apply item_nonneg in Ev as [Ev _]; [|lia].
  rewrite Nat2Z.id, Ek in Ev. injection Ev as <-.
  apply (put_written _ ptr ptr') in Hv; [congruence | | exact H].
  apply Forall_forall. intros z Hz.
  assert (Hpos : Forall (fun k => 0 <= k) (Np.argwhere (eq_unmatched x0)))
    by apply argwhere_nonneg.
  destruct (take_spec _ _ _ Hpos E3 z Hz) as (q & _ & Eq).
  apply nth_error_In, valid_pos_In in Eq. lia.
Qed.

(** X2. After lines 114-150 every annotated event that keeps a pointer refers
    to a predicted event that keeps a pointer too: this is what the pass of
    line 150 re-checks (the other direction is checked once, at line 147, and
    not again). *)
Theorem candidates_answered :
  forall (annotated predicted a2b b2a : list Z),
    candidates annotated predicted = Ok (a2b, b2a) ->
    forall i j, points a2b i j -> exists i', points b2a j i'.
Proof.
  intros a p A B H i j Hij.
  apply candidates_stages in H
    as (a2b0 & b2a0 & a2b1 & b2a1 & a2b2 & Ea & _ & R1 & _ & P1 & _ & P3).
  apply (prune_answered (len p) a2b2 B A i j); [|exact P3 | exact Hij].
  apply nearest_range in Ea as [Ea _].
  apply resolve_relaxes in R1. apply prune_relaxes in P1.
  apply (relaxes_ptr_ok (len p) a2b0 a2b2);
    [eapply relaxes_trans; eauto | apply in_range_ptr_ok; exact Ea].
Qed.

Lemma candidates_answered_witness :
  candidates [50; 109; 128] [0; 80; 130] =
    Ok ([UNMATCHED; UNMATCHED; 2], [0; UNMATCHED; 2]) /\
  points [UNMATCHED; UNMATCHED; 2] 2 2 /\
  exists i', points [0; UNMATCHED; 2] 2 i'.
Proof.
  assert (Hp : points [UNMATCHED; UNMATCHED; 2] 2 2)
    by (repeat split; [lia | discriminate]).
  split; [reflexivity|]. split; [exact Hp|].
  exact (candidates_answered [50; 109; 128] [0; 80; 130]
           [UNMATCHED; UNMATCHED; 2] [0; UNMATCHED; 2] eq_refl 2 2 Hp).
Defined.

(** ** compare_events: the shape of the timing differences *)

Lemma compress_length (l : list Z) (m : list bool) :
  length l = length m -> length (Np.compress l m) = length (Np.argwhere m).
Proof.
  intros H. rewrite (compress_argwhere l m H). apply length_map.
Qed.

Lemma zip_sub_length (xs ys : list Z) :
  length xs = length ys -> length (Np.zip_sub xs ys) = length xs.
Proof.
  revert ys; induction xs as [|x xs IH]; intros [|y ys] H; simpl in *;
    try discriminate; [reflexivity|]. rewrite IH; [reflexivity | lia].
Qed.

Lemma time_differences_shape (a p a2b b2a td : list Z) :
  length a2b = length a -> length b2a = length p ->
  time_differences a p a2b b2a = Ok td ->
  let na := length (valid_pos a2b) in
  let nb := length (valid_pos b2a) in
  (na = nb /\ length td = na) \/
  (nb = 1%nat /\ length td = na) \/
  (na = 1%nat /\ length td = nb).
Proof.
  intros La Lb H na nb.
  assert (Hmask : forall (l ptr : list Z), length ptr = length l ->
            Np.mask l (gt_unmatched ptr) = Ok (Np.compress l (gt_unmatched ptr))).
  { intros l ptr Hl. unfold Np.mask, gt_unmatched.
    rewrite length_map, Hl, Nat.eqb_refl. reflexivity. }
  unfold time_differences in H.
  rewrite (Hmask p b2a Lb), (Hmask a a2b La) in H. cbn [bind] in H.
  assert (Ha : length (Np.compress a (gt_unmatched a2b)) = na)
    by (apply compress_length; unfold gt_unmatched; rewrite length_map; congruence).
  assert (Hb : length (Np.compress p (gt_unmatched b2a)) = nb)
    by (apply compress_length; unfold gt_unmatched; rewrite length_map; congruence).
  revert H Ha Hb. generalize (Np.compress a (gt_unmatched a2b)) as ys.
  generalize (Np.compress p (gt_unmatched b2a)) as xs.
  intros xs ys H Ha Hb. unfold Np.sub in H. revert H.
  destruct (Nat.eqb (length xs) (length ys)) eqn:E; intros H.
  - apply Nat.eqb_eq in E. injection H as <-. left.
    rewrite zip_sub_length by exact E. lia.
  - destruct xs as [|x [|x' xs]].
    + destruct ys as [|y [|y' ys]]; simpl in H; try discriminate.
      injection H as <-. right; right. simpl in *. lia.
    + simpl in H. injection H as <-. right; left. rewrite length_map.
      simpl in *. lia.
    + destruct ys as [|y [|y' ys]]; simpl in H; try discriminate.
      injection H as <-. right; right. simpl in *. rewrite length_map. lia.
Qed.

(** X3. When [compare_events] returns on two non-empty arrays, the two sides
    keep the same number of pointers and there is one timing difference per
    pointer, or one side keeps exactly one pointer and NumPy broadcasts it
    against every pointer of the other side; any other shape makes line 164
    raise. *)
Theorem compare_events_time_diff_shape :
  forall (annotated predicted : list Z) (thr : Z) (a2b b2a td : list Z),
    annotated <> [] -> predicted <> [] ->
    compare_events annotated predicted thr = Ok (a2b, b2a, td) ->
    let na := length (valid_pos a2b) in
    let nb := length (valid_pos b2a) in
    (na = nb /\ length td = na) \/
    (nb = 1%nat /\ length td = na) \/
    (na = 1%nat /\ length td = nb).
Proof.
  intros a p thr a2b b2a td Ha Hp H.
  destruct (compare_events_lengths _ _ _ _ _ _ H) as [La Lb].
  rewrite compare_events_general in H by assumption.
  inv_bind H. destruct x as [A B]. inv_bind H. destruct x as [A1 B1].
  inv_bind H. injection H as <- <- <-.
  apply (time_differences_shape a p); assumption.
Qed.

Lemma compare_events_time_diff_shape_witness :
  compare_events [0; 20; 75; 150] [0; 45; 110] 20 =
    Ok ([0; UNMATCHED; UNMATCHED; 2], [0; UNMATCHED; UNMATCHED], [0; -150]) /\
  let na := length (valid_pos [0; UNMATCHED; UNMATCHED; 2]) in
  let nb := length (valid_pos [0; UNMATCHED; UNMATCHED]) in
  (na = nb /\ length [0; -150] = na) \/
  (nb = 1%nat /\ length [0; -150] = na) \/
  (na = 1%nat /\ length [0; -150] = nb).
Proof.
  split; [reflexivity|].
  refine (compare_events_time_diff_shape [0; 20; 75; 150] [0; 45; 110] 20
            [0; UNMATCHED; UNMATCHED; 2] [0; UNMATCHED; UNMATCHED] [0; -150]
            _ _ eq_refl); discriminate.
Defined.

(** ** MetricsGaitEvents: when it returns, and what it counts *)

Lemma put_each_total {A : Type} (idxs : list Z) (vals l : list A) :
  Forall (fun i => 0 <= i < len l) idxs ->
  exists l', Np.put_each l idxs vals = Ok l'.
Proof.
  revert vals l; induction idxs as [|i r IH]; intros vals l H; simpl;
    [eexists; reflexivity|].
  destruct vals as [|v vs]; [eexists; reflexivity|].
  inversion H as [|? ? Hi Hr]; subst.
  rewrite setitem_inrange by exact Hi. simpl.
  apply IH. rewrite update_len. exact Hr.
Qed.

Lemma argwhere_in_range (m : list bool) :
  Forall (fun i => 0 <= i < len m) (Np.argwhere m).
Proof.
  apply Forall_forall. intros i Hi. apply argwhere_spec in Hi. tauto.
Qed.

(** X4. With pointer arrays of the lengths of the two event arrays,
    [MetricsGaitEvents] returns exactly when the two arrays hold the same
    number of pointers that are not the sentinel, or the predicted side holds
    exactly one (which is then written to every matched annotated event); it
    then reports the numbers of sentinel entries.  In every other case line
    206 raises ValueError. *)
Theorem MetricsGaitEvents_returns :
  forall (gs dut t2p p2t : list Z),
    length t2p = length gs -> length p2t = length dut ->
    let na := length (Np.argwhere (ne_unmatched t2p)) in
    let nb := length (Np.argwhere (ne_unmatched p2t)) in
    (nb = na \/ nb = 1%nat ->
     exists aligned,
       MetricsGaitEvents gs dut t2p p2t =
         Ok (count_unmatched t2p, count_unmatched p2t, aligned) /\
       length aligned = length gs) /\
    (nb <> na -> nb <> 1%nat ->
     MetricsGaitEvents gs dut t2p p2t = Raise ValueError).
Proof.
  intros gs dut t2p p2t Lt Lp na nb.
  assert (Hmask : forall (l : list Z) (m : list bool), length l = length m ->
            Np.mask l m = Ok (Np.compress l m)).
  { intros l m Hl. unfold Np.mask. rewrite Hl, Nat.eqb_refl. reflexivity. }
  unfold MetricsGaitEvents.
  rewrite (Hmask t2p (eq_unmatched t2p))
    by (unfold eq_unmatched; rewrite length_map; reflexivity).
  rewrite (Hmask p2t (eq_unmatched p2t))
    by (unfold eq_unmatched; rewrite length_map; reflexivity).
  rewrite (Hmask dut (ne_unmatched p2t))
    by (unfold ne_unmatched; rewrite length_map; congruence).
  cbn [bind].
  assert (Lv : length (Np.compress dut (ne_unmatched p2t)) = nb)
    by (apply compress_length; unfold ne_unmatched; rewrite length_map; congruence).
  assert (Hr : Forall (fun i => 0 <= i < len (Np.full_like gs UNMATCHED))
                 (Np.argwhere (ne_unmatched t2p))).
  { eapply Forall_impl; [|apply argwhere_in_range]. intros i Hi.
    unfold ne_unmatched, len in *. rewrite length_map in Hi.
    rewrite full_like_length. lia. }
  assert (Hc : forall ptr, len (Np.compress ptr (eq_unmatched ptr)) =
                           count_unmatched ptr).
  { intros ptr. unfold eq_unmatched. rewrite compress_map_filter. reflexivity. }
  rewrite !Hc.
  unfold Np.put_array. rewrite Lv.
  change (length (Np.argwhere (ne_unmatched t2p))) with na.
  clearbody na nb.
  revert Lv. generalize (Np.compress dut (ne_unmatched p2t)) as vals.
  intros vals Lv. split.
  - intros Hn. destruct (Nat.eqb nb na) eqn:E.
    + destruct (put_each_total _ vals _ Hr) as [al Eal]. rewrite Eal.
      exists al. split; [reflexivity|].
      apply put_each_length in Eal. rewrite Eal. apply full_like_length.
    + apply Nat.eqb_neq in E. destruct Hn as [?|Hn]; [contradiction|].
      destruct vals as [|v [|v' vals]]; simpl in Lv; try lia.
      destruct (put_total _ v _ Hr) as [al Eal]. rewrite Eal.
      exists al. split; [reflexivity|].
      apply put_length in Eal. rewrite Eal. apply full_like_length.
  - intros Hne H1. replace (Nat.eqb nb na) with false
      by (symmetry; apply Nat.eqb_neq; exact Hne).
    destruct vals as [|v [|v' vals]]; simpl in Lv; try reflexivity. lia.
Qed.

Lemma MetricsGaitEvents_returns_witness :
  (exists aligned,
     MetricsGaitEvents [0; 20; 75; 150] [0; 45; 110]
       [0; UNMATCHED; UNMATCHED; 2] [0; UNMATCHED; 2] =
       Ok (count_unmatched [0; UNMATCHED; UNMATCHED; 2],
           count_unmatched [0; UNMATCHED; 2], aligned) /\
     length aligned = length [0; 20; 75; 150]) /\
  MetricsGaitEvents [0; 1; 3] [0; 2; 4]
    [0; UNMATCHED; UNMATCHED] [0; UNMATCHED; 2] = Raise ValueError.
Proof.
  split.
  - apply (MetricsGaitEvents_returns [0; 20; 75; 150] [0; 45; 110]
             [0; UNMATCHED; UNMATCHED; 2] [0; UNMATCHED; 2] eq_refl eq_refl).
    left. reflexivity.
  - apply (MetricsGaitEvents_returns [0; 1; 3] [0; 2; 4]
             [0; UNMATCHED; UNMATCHED] [0; UNMATCHED; 2] eq_refl eq_refl);
      discriminate.
Defined.

(** ** The missed events in the predicted timeline *)

Lemma setitem_written_any {A : Type} (l l' : list A) (i : Z) (v : A) :
  0 <= i -> Np.setitem l i v = Ok l' -> nth_error l' (Z.to_nat i) = Some v.
Proof.
  intros Hi H. unfold Np.setitem, Np.norm_index in H.
  destruct ((0 <=? i) && (i <? len l)) eqn:E1.
  - simpl in H. injection H as <-. apply andb_prop in E1 as [_ E1].
    rewrite update_nth_error, Nat.eqb_refl.
    replace (Nat.ltb (Z.to_nat i) (length l)) with true; [reflexivity|].
    symmetry. apply Nat.ltb_lt. unfold len in E1. lia.
  - destruct ((- len l <=? i) && (i <? 0)) eqn:E2; [|discriminate].
    apply andb_prop in E2 as [_ E2]. lia.
Qed.

Lemma put_written_any {A : Type} (idxs : list Z) (v : A) (l l' : list A) (i : Z) :
  Forall (fun k => 0 <= k) idxs -> Np.put l idxs v = Ok l' ->
  In i idxs -> nth_error l' (Z.to_nat i) = Some v.
Proof.
  revert l; induction idxs as [|k r IH]; simpl; intros l Hpos H Hi;
    [contradiction|].
  inversion Hpos as [|? ? Hk Hr]; subst. inv_bind H.
  destruct (in_dec Z.eq_dec i r) as [Hin|Hout]; [eapply IH; eauto|].
  destruct Hi as [->|Hi]; [|contradiction].
  rewrite (put_other r v x l' (Z.to_nat i) Hr); [| |exact H].
  - eapply setitem_written_any; eauto.
  - rewrite Z2Nat.id by exact Hk. exact Hout.
Qed.

Lemma put_each_written {A : Type} (idxs : list Z) (vals l l' : list A) (i : Z) :
  length vals = length idxs ->
  Forall (fun k => 0 <= k) idxs -> Np.put_each l idxs vals = Ok l' ->
  In i idxs -> exists v, In v vals /\ nth_error l' (Z.to_nat i) = Some v.
Proof.
  revert vals l; induction idxs as [|k r IH]; intros [|v vs] l Hlen Hpos H Hi;
    simpl in *; try contradiction; try discriminate.
  inversion Hpos as [|? ? Hk Hr]; subst. inv_bind H.
  destruct (in_dec Z.eq_dec i r) as [Hin|Hout].
  - destruct (IH vs x) as (w & Hw & Ew); auto. exists w. auto.
  - destruct Hi as [->|Hi]; [|contradiction].
    exists v. split; [left; reflexivity|].
    rewrite (put_each_other r vs x l' (Z.to_nat i) Hr); [| |exact H].
    + eapply setitem_written_any; eauto.
    + rewrite Z2Nat.id by exact Hk. exact Hout.
Qed.

Lemma put_array_written {A : Type} (idxs : list Z) (vals l l' : list A) (i : Z) :
  Forall (fun k => 0 <= k) idxs -> Np.put_array l idxs vals = Ok l' ->
  In i idxs -> exists v, In v vals /\ nth_error l' (Z.to_nat i) = Some v.
Proof.
  unfold Np.put_array. intros Hpos H Hi.
  destruct (Nat.eqb (length vals) (length idxs)) eqn:E.
  - apply Nat.eqb_eq in E. eapply put_each_written; eauto.
  - destruct vals as [|v [|? ?]]; try discriminate.
    exists v. split; [left; reflexivity|]. eapply put_written_any; eauto.
Qed.

Lemma compress_In {A : Type} (l : list A) (m : list bool) (v : A) :
  In v (Np.compress l m) -> In v l.
Proof.
  revert m; induction l as [|x l IH]; intros [|b m] H; simpl in *;
    try contradiction.
  destruct b; [destruct H as [->|H]|]; eauto.
Qed.

(** The aligned predictions hold the sentinel exactly where the annotated
    pointers do, as long as no predicted sample is the sentinel itself. *)
Lemma MetricsGaitEvents_sentinels (gs dut t2p p2t aligned : list Z)
  (missed extra : Z) :
  Forall (fun v => v <> UNMATCHED) dut ->
  length t2p = length gs ->
  MetricsGaitEvents gs dut t2p p2t = Ok (missed, extra, aligned) ->
  eq_unmatched aligned = eq_unmatched t2p /\ missed = count_unmatched t2p.
Proof.
  intros Hdut Lt H.
  pose proof (MetricsGaitEvents_length _ _ _ _ _ _ _ H) as Lal.
  assert (Hslot := fun k => MetricsGaitEvents_missed_slot _ _ _ _ _ _ _ k H).
  unfold MetricsGaitEvents in H. do 4 inv_bind H. injection H as <- _ <-.
  split.
  - apply nth_error_ext. intros n. unfold eq_unmatched.
    rewrite !nth_error_map.
    destruct (nth_error t2p n) as [v|] eqn:En.
    + assert (Hn : (n < length gs)%nat)
        by (rewrite <- Lt; apply nth_error_Some; congruence).
      destruct (Z.eq_dec v UNMATCHED) as [->|Hv].
      * rewrite (Hslot n Hn En). reflexivity.
      * assert (Hin : In (Z.of_nat n) (Np.argwhere (ne_unmatched t2p))).
        { apply argwhere_from_In; [lia|].
          replace (Z.of_nat n - 0) with (Z.of_nat n) by lia.
          unfold ne_unmatched. rewrite Nat2Z.id, nth_error_map, En. simpl.
          f_equal. apply negb_true_iff, Z.eqb_neq. exact Hv. }
        destruct (put_array_written _ _ _ _ _ (argwhere_nonneg _) E2 Hin)
          as (w & Hw & Ew).
        rewrite Nat2Z.id in Ew. rewrite Ew. simpl. f_equal.
        unfold Np.mask in E1.
        destruct (Nat.eqb (length dut) (length (ne_unmatched p2t)));
          [|discriminate].
        injection E1 as <-. apply compress_In in Hw.
        rewrite Forall_forall in Hdut.
        transitivity false; [|symmetry]; apply Z.eqb_neq; auto.
    + apply nth_error_None in En.
      replace (nth_error x2 n) with (@None Z); [reflexivity|].
      symmetry. apply nth_error_None. lia.
  - unfold Np.mask in E.
    destruct (Nat.eqb (length t2p) (length (eq_unmatched t2p))); [|discriminate].
    injection E as <-. unfold eq_unmatched. rewrite compress_map_filter.
    reflexivity.
Qed.

Lemma count_nan_app (l1 l2 : list (option Z)) :
  count_nan (l1 ++ l2) = count_nan l1 + count_nan l2.
Proof.
  unfold count_nan, len. rewrite filter_app, length_app. lia.
Qed.

Lemma count_nan_shifted (s : Z) (aligned : list Z) :
  count_nan (map (option_map (fun d => s + d + 1)) (map to_nan aligned)) =
  count_unmatched aligned.
Proof.
  unfold count_nan, count_unmatched, len. f_equal.
  induction aligned as [|v l IH]; simpl; [reflexivity|].
  unfold to_nan at 1. destruct (v =? UNMATCHED); simpl; rewrite IH; reflexivity.
Qed.

Lemma count_unmatched_eq (l1 l2 : list Z) :
  eq_unmatched l1 = eq_unmatched l2 -> count_unmatched l1 = count_unmatched l2.
Proof.
  unfold count_unmatched, eq_unmatched, len. intros H. f_equal.
  revert l2 H; induction l1 as [|x l1 IH]; intros [|y l2] H; simpl in *;
    try discriminate; [reflexivity|].
  injection H as Hxy H. rewrite Hxy. destruct (y =? UNMATCHED); simpl;
    rewrite (IH l2 H); reflexivity.
Qed.

Lemma detect_inv {prob : Type} (find_peaks : list prob -> list Z)
  (ge_min_height : prob -> bool) (w : list prob) (dut : list Z) :
  detect find_peaks ge_min_height w = Ok dut ->
  exists first last,
    w <> [] /\
    dut = (if ge_min_height first then [0] else []) ++ find_peaks w ++
          (if ge_min_height last then [len w - 1] else []).
Proof.
  unfold detect; intros H. inv_bind H. inv_bind H. injection H as <-.
  exists x, x0. split.
  - intros ->. discriminate.
  - destruct (ge_min_height x), (ge_min_height x0); simpl;
      rewrite ?app_nil_r; reflexivity.
Qed.

(** X5. As long as the peak finder never returns the sentinel value as an
    index, the number of missed events [modelEvaluate] returns is the number
    of [nan] entries of the predicted timeline it returns. *)
Theorem modelEvaluate_missed_is_nan_count :
  forall (prob label X : Type) (find_peaks : list prob -> list Z)
         (ge_min_height : prob -> bool) (is_event : label -> bool)
         (model : X -> list (list prob)) x t extra missed dut gs,
    (forall w, Forall (fun v => v <> UNMATCHED) (find_peaks w)) ->
    modelEvaluate find_peaks ge_min_height is_event model x t
      = Ok (extra, missed, dut, gs) ->
    missed = count_nan dut.
Proof.
  intros prob label X fp ge ie model x t extra missed dut gs Hfp H.
  unfold modelEvaluate in H. inv_bind H. injection H as _ <- <- _.
  revert E. unfold evaluate_from.
  apply (foldM_inv (fun a => missedEvents a = count_nan (ipksDUT a)));
    [|reflexivity].
  intros s [i w] s' Hs _ Hstep.
  apply window_step_inv in Hstep
    as (tl & d & t2p & p2t & td & m & e & al & _ & Ed & Ec & Hm & ->).
  simpl. rewrite count_nan_app, count_nan_shifted, Hs. f_equal.
  destruct (compare_events_lengths _ _ _ _ _ _ Ec) as [Lt _].
  assert (Hd : Forall (fun v => v <> UNMATCHED) d).
  { apply detect_inv in Ed as (first & last & Hw & ->).
    assert (Hlen : 0 <= len w - 1)
      by (destruct w; [contradiction | unfold len; cbn [length]; lia]).
    apply Forall_app. split; [|apply Forall_app; split; [apply Hfp|]].
    - destruct (ge first); constructor; [discriminate | constructor].
    - destruct (ge last); constructor; [unfold UNMATCHED; lia | constructor]. }
  destruct (MetricsGaitEvents_sentinels _ _ _ _ _ _ _ Hd Lt Hm) as [He ->].
  symmetry. apply count_unmatched_eq. exact He.
Qed.

Lemma modelEvaluate_missed_is_nan_count_witness :
  (forall w, Forall (fun v => v <> UNMATCHED) (no_peaks w)) /\
  modelEvaluate no_peaks (fun b : bool => b) is_one
    (fun _ : unit => silent_preds) tt scenario_targets
    = Ok (0, 2, [None; None], [11; 206]) /\
  2 = count_nan [None; None].
Proof.
  assert (Hfp : forall w, Forall (fun v => v <> UNMATCHED) (no_peaks w))
    by (intros w; constructor).
  assert (H : modelEvaluate no_peaks (fun b : bool => b) is_one
                (fun _ : unit => silent_preds) tt scenario_targets
              = Ok (0, 2, [None; None], [11; 206]))
    by (vm_compute; reflexivity).
  split; [exact Hfp|]. split; [exact H|].
  exact (modelEvaluate_missed_is_nan_count bool Z unit no_peaks (fun b => b)
           is_one (fun _ => silent_preds) tt scenario_targets
           0 2 [None; None] [11; 206] Hfp H).
Defined.

(** ** The events handed to compare_events *)

Lemma StronglySorted_lt_app (l1 l2 : list Z) :
  StronglySorted Z.lt l1 -> StronglySorted Z.lt l2 ->
  (forall x y, In x l1 -> In y l2 -> x < y) ->
  StronglySorted Z.lt (l1 ++ l2).
Proof.
  induction 1 as [|a l1 Hs IH Hall]; intros H2 Hlt; simpl; [exact H2|].
  constructor.
  - apply IH; [exact H2|]. intros x y Hx Hy. apply Hlt; [right|]; assumption.
  - apply Forall_app. split; [exact Hall|].
    apply Forall_forall. intros y Hy. apply Hlt; [left; reflexivity | exact Hy].
Qed.

Lemma detect_total {prob : Type} (find_peaks : list prob -> list Z)
  (ge_min_height : prob -> bool) (w : list prob) :
  w <> [] -> exists dut, detect find_peaks ge_min_height w = Ok dut.
Proof.
  intros Hw. unfold detect.
  assert (Hlen : 0 < len w)
    by (destruct w; [contradiction | unfold len; cbn [length]; lia]).
  destruct (item_inrange w 0) as (first & -> & _); [lia|]. cbn [bind].
  assert (E : exists last, Np.item w (-1) = Ok last).
  { unfold Np.item, Np.norm_index.
    replace ((0 <=? -1) && (-1 <? len w)) with false by reflexivity.
    replace ((- len w <=? -1) && (-1 <? 0)) with true
      by (symmetry; apply andb_true_intro; split; lia).
    cbn [bind].
    destruct (nth_error w (Z.to_nat (len w + -1))) as [v|] eqn:En;
      [eauto|].
    apply nth_error_None in En. unfold len in *. lia. }
  destruct E as [last ->]. cbn [bind]. eauto.
Qed.

(** X6. [detect] raises IndexError on a window without samples.  On a window
    of two samples or more, when the peak finder returns increasing indices
    strictly inside the window (it cannot flag a boundary sample), the events
    returned, with sample 0 and the last sample added where the curve reaches
    the height threshold, are strictly increasing and lie inside the window.
    A window of one sample that reaches the threshold yields event 0
    twice. *)
Theorem detect_sorted :
  forall (prob : Type) (find_peaks : list prob -> list Z)
         (ge_min_height : prob -> bool) (w : list prob),
    (w = [] -> detect find_peaks ge_min_height w = Raise IndexError) /\
    (2 <= len w ->
     StronglySorted Z.lt (find_peaks w) ->
     Forall (fun v => 0 < v < len w - 1) (find_peaks w) ->
     exists dut,
       detect find_peaks ge_min_height w = Ok dut /\
       StronglySorted Z.lt dut /\
       Forall (fun v => 0 <= v <= len w - 1) dut) /\
    (forall p, w = [p] -> ge_min_height p = true -> find_peaks w = [] ->
               detect find_peaks ge_min_height w = Ok [0; 0]).
Proof.
  intros prob fp ge w. split; [intros ->; reflexivity|]. split.
  - intros Hlen Hs Hr.
    destruct (detect_total fp ge w) as [dut E];
      [intros ->; unfold len in Hlen; simpl in Hlen; lia|].
    exists dut. split; [exact E|].
    apply detect_inv in E as (first & last & _ & ->).
    rewrite Forall_forall in Hr. split.
    + apply StronglySorted_lt_app; [| apply StronglySorted_lt_app |].
      * destruct (ge first); repeat constructor.
      * exact Hs.
      * destruct (ge last); repeat constructor.
      * intros x y Hx Hy. specialize (Hr x Hx).
        destruct (ge last); simpl in Hy; [|contradiction].
        destruct Hy as [<-|[]]. lia.
      * intros x y Hx Hy. destruct (ge first); simpl in Hx; [|contradiction].
        destruct Hx as [<-|[]]. apply in_app_or in Hy as [Hy|Hy].
        -- specialize (Hr y Hy). lia.
        -- destruct (ge last); simpl in Hy; [|contradiction].
           destruct Hy as [<-|[]]. lia.
    + apply Forall_app. split; [|apply Forall_app; split].
      * destruct (ge first); repeat constructor; lia.
      * apply Forall_forall. intros v Hv. specialize (Hr v Hv). lia.
      * destruct (ge last); repeat constructor; lia.
  - intros p -> Hp Hfp. unfold detect. rewrite Hfp. simpl. rewrite Hp.
    reflexivity.
Qed.

Lemma detect_sorted_witness :
  2 <= len [false; true; false; true] /\
  StronglySorted Z.lt [1] /\
  Forall (fun v => 0 < v < len [false; true; false; true] - 1) [1] /\
  exists dut,
    detect (fun _ : list bool => [1]) (fun b => b) [false; true; false; true]
      = Ok dut /\
    StronglySorted Z.lt dut /\
    Forall (fun v => 0 <= v <= len [false; true; false; true] - 1) dut.
Proof.
  assert (H1 : 2 <= len [false; true; false; true])
    by (unfold len; simpl; lia).
  assert (H2 : StronglySorted Z.lt [1]) by (repeat constructor).
  assert (H3 : Forall (fun v => 0 < v < len [false; true; false; true] - 1) [1])
    by (repeat constructor; unfold len; simpl; lia).
  split; [exact H1|]. split; [exact H2|]. split; [exact H3|].
  exact (proj1 (proj2 (detect_sorted bool (fun _ => [1]) (fun b => b)
                         [false; true; false; true])) H1 H2 H3).
Defined.

(** ** modelEvaluate: what a run that returns needs, and its timeline *)


Lemma map_fst_enumerate_from {A : Type} (l : list A) (s : nat) :
  map fst (combine (seq s (length l)) l) = seq s (length l).
Proof.
  revert s; induction l as [|x l IH]; intros s; simpl; [reflexivity|].
  rewrite IH. reflexivity.
Qed.




Lemma shifted_targets_sorted {prob label : Type} (is_event : label -> bool)
  (L : Z) (ws : list (nat * list prob)) :
  forall (tls : list (list label)) (s : nat),
    0 <= L ->
    map fst ws = seq s (length ws) ->
    length tls = length ws ->
    Forall (fun tl => len tl <= L) tls ->
    StronglySorted Z.lt (shifted_targets is_event L ws tls) /\
    Forall (fun g => Z.of_nat s * L + 1 <= g <= (Z.of_nat s + len ws) * L)
           (shifted_targets is_event L ws tls).
Proof.
  induction ws as [|[i w] ws IH]; intros tls s HL Hfst Hlen Htl.
  - destruct tls; [|discriminate]. unfold shifted_targets. simpl.
    split; constructor.
  - destruct tls as [|tl tls]; [discriminate|].
    simpl in Hfst. injection Hfst as -> Hfst.
    inversion Htl as [|? ? Htl0 Htl']; subst.
    destruct (IH tls (S s) HL Hfst) as [Hs Hr]; [simpl in Hlen; lia | exact Htl'|].
    unfold shifted_targets in *. simpl.
    set (block := map (fun g => g + (Z.of_nat s * L + 1)) (targets is_event tl)).
    assert (Hb : Forall (fun g => Z.of_nat s * L + 1 <= g <= (Z.of_nat s + 1) * L)
                   block).
    { apply Forall_forall. intros g Hg. apply in_map_iff in Hg as (v & <- & Hv).
      apply argwhere_spec in Hv as [Hv _]. rewrite len_map in Hv. lia. }
    assert (Hlen' : len ((s, w) :: ws) = len ws + 1)
      by (unfold len; cbn [length]; lia).
    rewrite Forall_forall in Hb, Hr. split.
    + apply StronglySorted_lt_app; [|exact Hs|].
      * apply StronglySorted_map_mono; [apply argwhere_from_sorted|].
        intros; lia.
      * intros x y Hx Hy. specialize (Hb x Hx). specialize (Hr y Hy). lia.
    + apply Forall_app. split; apply Forall_forall; intros g Hg.
      * specialize (Hb g Hg). rewrite Hlen'.
        assert (0 <= len ws * L) by (apply Z.mul_nonneg_nonneg; unfold len; lia).
        lia.
      * specialize (Hr g Hg). rewrite Hlen'. lia.
Qed.

(** X8. When no target row is longer than a window of the predictions, the
    ground-truth timeline [modelEvaluate] returns is strictly increasing and
    lies between 1 and the number of samples of the bout: the shift by
    [i*L + 1] puts the events of window [i] after those of the windows before
    it. *)
Theorem modelEvaluate_timeline_increasing :
  forall (prob label X : Type) (find_peaks : list prob -> list Z)
         (ge_min_height : prob -> bool) (is_event : label -> bool)
         (model : X -> list (list prob)) x t extra missed dut gs,
    Forall (fun tl => len tl <= shape1 (model x)) t ->
    modelEvaluate find_peaks ge_min_height is_event model x t
      = Ok (extra, missed, dut, gs) ->
    StronglySorted Z.lt gs /\
    Forall (fun g => 1 <= g <= len (model x) * shape1 (model x)) gs.
Proof.
  intros prob label X fp ge ie model x t extra missed dut gs Ht H.
  unfold modelEvaluate in H. inv_bind H. injection H as _ _ _ <-.
  apply evaluate_from_GS in E as (tls & Htls & ->). simpl.
  assert (HL : 0 <= shape1 (model x))
    by (unfold shape1; destruct (model x); unfold len; lia).
  destruct (shifted_targets_sorted ie (shape1 (model x)) (enumerate (model x))
              tls 0 HL) as [Hs Hr].
  - unfold enumerate. rewrite map_fst_enumerate_from.
    rewrite length_combine, length_seq, Nat.min_id. reflexivity.
  - symmetry. exact (Forall2_length Htls).
  - rewrite Forall_forall in Ht. apply Forall_forall. intros tl Htl.
    clear - Htls Htl Ht.
    induction Htls as [|iw tl' ws tls Hi _ IH]; [contradiction|].
    destruct Htl as [<-|Htl]; [|apply IH; exact Htl].
    apply item_nonneg in Hi as [Hi _]; [|lia].
    apply Ht. eapply nth_error_In; eauto.
  - split; [exact Hs|]. eapply Forall_impl; [|exact Hr].
    intros g Hg. simpl in Hg.
    replace (len (enumerate (model x))) with (len (model x)) in Hg; [lia|].
    unfold len, enumerate. rewrite length_combine, length_seq, Nat.min_id.
    reflexivity.
Qed.

Lemma modelEvaluate_timeline_increasing_witness :
  Forall (fun tl => len tl <= shape1 silent_preds) scenario_targets /\
  modelEvaluate no_peaks (fun b : bool => b) is_one
    (fun _ : unit => silent_preds) tt scenario_targets
    = Ok (0, 2, [None; None], [11; 206]) /\
  StronglySorted Z.lt [11; 206] /\
  Forall (fun g => 1 <= g <= len silent_preds * shape1 silent_preds) [11; 206].
Proof.
  assert (Ht : Forall (fun tl => len tl <= shape1 silent_preds) scenario_targets)
    by (repeat constructor; vm_compute; discriminate).
  assert (H : modelEvaluate no_peaks (fun b : bool => b) is_one
                (fun _ : unit => silent_preds) tt scenario_targets
              = Ok (0, 2, [None; None], [11; 206]))
    by (vm_compute; reflexivity).
  split; [exact Ht|]. split; [exact H|].
  exact (modelEvaluate_timeline_increasing bool Z unit no_peaks (fun b => b)
           is_one (fun _ => silent_preds) tt scenario_targets
           0 2 [None; None] [11; 206] Ht H).
Defined.

(** ** buildDataSet: the Fortran-order reshape *)

Lemma heads_length {A : Type} (k : nat) (rows : list (list A)) :
  rect (S k) rows -> length (flat_map (firstn 1) rows) = length rows.
Proof.
  induction 1 as [|r rows Hr _ IH]; cbn [flat_map]; [reflexivity|].
  rewrite length_app, IH. destruct r; [discriminate | reflexivity].
Qed.

Lemma tails_rect {A : Type} (k : nat) (rows : list (list A)) :
  rect (S k) rows -> rect k (map (skipn 1) rows).
Proof.
  unfold rect. intros H. apply Forall_map. eapply Forall_impl; [|exact H].
  intros r Hr. destruct r; [discriminate|]. simpl in *. lia.
Qed.

Lemma ravel_F_length {A : Type} (k : nat) (rows : list (list A)) :
  rect k rows -> length (Nd.ravel_F k rows) = (length rows * k)%nat.
Proof.
  revert rows; induction k as [|k IH]; intros rows H; cbn [Nd.ravel_F];
    [simpl; lia|].
  rewrite length_app, (heads_length k rows H), (IH _ (tails_rect k rows H)).
  rewrite length_map. lia.
Qed.

Lemma heads_nth {A : Type} (k : nat) (rows : list (list A)) (r : nat)
  (row : list A) :
  rect (S k) rows -> nth_error rows r = Some row ->
  nth_error (flat_map (firstn 1) rows) r = nth_error row 0.
Proof.
  intros H; revert r; induction H as [|x rows Hx _ IH]; intros [|r] E;
    simpl in *; try discriminate.
  - injection E as ->. destruct row; [discriminate | reflexivity].
  - destruct x as [|a x]; [discriminate|]. apply IH. exact E.
Qed.

(** Element [r + n*j] of the Fortran-order elements is entry [(r, j)]. *)
Lemma ravel_F_nth {A : Type} (k : nat) :
  forall (rows : list (list A)) (r j : nat) (row : list A),
    rect k rows -> nth_error rows r = Some row -> (j < k)%nat ->
    nth_error (Nd.ravel_F k rows) (r + length rows * j) = nth_error row j.
Proof.
  induction k as [|k IH]; intros rows r j row H Er Hj; [lia|].
  assert (Hr : (r < length rows)%nat) by (apply nth_error_Some; congruence).
  cbn [Nd.ravel_F]. destruct j as [|j].
  - rewrite nth_error_app1 by (rewrite (heads_length k rows H); lia).
    replace (r + length rows * 0)%nat with r by lia.
    apply (heads_nth k); assumption.
  - rewrite nth_error_app2 by (rewrite (heads_length k rows H); lia).
    rewrite (heads_length k rows H).
    replace (r + length rows * S j - length rows)%nat
      with (r + length (map (skipn 1) rows) * j)%nat
      by (rewrite length_map; lia).
    rewrite (IH (map (skipn 1) rows) r j (skipn 1 row)).
    + destruct row; [destruct j|]; reflexivity.
    + apply tails_rect. exact H.
    + rewrite nth_error_map, Er. reflexivity.
    + lia.
Qed.

Lemma ravel_F_row {A : Type} (row : list A) :
  Nd.ravel_F (length row) [row] = row.
Proof.
  induction row as [|a row IH]; simpl; [reflexivity|].
  rewrite IH. reflexivity.
Qed.

Lemma mapM_seq_nth {B : Type} (f : nat -> result B) (n k : nat) (ys : list B) :
  mapM f (seq 0 n) = Ok ys -> (k < n)%nat ->
  exists y, nth_error ys k = Some y /\ f k = Ok y.
Proof.
  intros H Hk. apply mapM_Ok_Forall2 in H.
  assert (E : nth_error (seq 0 n) k = Some k).
  { rewrite nth_error_nth' with (d := O) by (rewrite length_seq; exact Hk).
    rewrite seq_nth by exact Hk. reflexivity. }
  destruct (Forall2_nth_error_l _ _ _ _ _ H E) as (y & Ey & Hy). eauto.
Qed.

Lemma mapM_length {A B : Type} (f : A -> result B) (l : list A) (ys : list B) :
  mapM f l = Ok ys -> length ys = length l.
Proof.
  intros H. apply mapM_Ok_Forall2 in H. symmetry. exact (Forall2_length H).
Qed.

Lemma unravel_F3_at {A : Type} (flat : list A) (n T C : nat)
  (x : list (list (list A))) (b t c : nat) :
  Nd.unravel_F3 flat n T C = Ok x ->
  (b < n)%nat -> (t < T)%nat -> (c < C)%nat ->
  at3 x b t c = nth_error flat (b + n * t + n * T * c) /\
  at3 x b t c <> None.
Proof.
  unfold Nd.unravel_F3. intros H Hb Ht Hc.
  destruct (Nat.eqb (length flat) (n * T * C)); [|discriminate].
  destruct (mapM_seq_nth _ _ _ _ H Hb) as (xb & Eb & Hxb).
  destruct (mapM_seq_nth _ _ _ _ Hxb Ht) as (xt & Et & Hxt).
  destruct (mapM_seq_nth _ _ _ _ Hxt Hc) as (v & Ec & Hv).
  unfold at3. rewrite Eb, Et, Ec.
  apply item_nonneg in Hv as [Hv _]; [|lia].
  rewrite Nat2Z.id in Hv. rewrite Hv. split; [reflexivity | discriminate].
Qed.

Lemma unravel_F3_shape {A : Type} (flat : list A) (n T C : nat)
  (x : list (list (list A))) :
  Nd.unravel_F3 flat n T C = Ok x ->
  length flat = (n * T * C)%nat /\
  length x = n /\
  Forall (fun xb => length xb = T /\ Forall (fun xt => length xt = C) xb) x.
Proof.
  unfold Nd.unravel_F3. intros H.
  destruct (Nat.eqb (length flat) (n * T * C)) eqn:E; [|discriminate].
  apply Nat.eqb_eq in E. split; [exact E|].
  split; [rewrite (mapM_length _ _ _ H); apply length_seq|].
  apply mapM_Ok_Forall2 in H.
  induction H as [|b xb bs x Hb _ IH]; constructor; [|exact IH].
  split; [rewrite (mapM_length _ _ _ Hb); apply length_seq|].
  apply mapM_Ok_Forall2 in Hb.
  induction Hb as [|t xt ts xb Ht _ IHt]; constructor; [|exact IHt].
  rewrite (mapM_length _ _ _ Ht). apply length_seq.
Qed.

Lemma unravel_F3_total {A : Type} (flat : list A) (n T C : nat) :
  length flat = (n * T * C)%nat ->
  exists x, Nd.unravel_F3 flat n T C = Ok x.
Proof.
  intros H. unfold Nd.unravel_F3. rewrite H, Nat.eqb_refl.
  apply mapM_total. intros b Hb. apply in_seq in Hb.
  apply mapM_total. intros t Ht. apply in_seq in Ht.
  apply mapM_total. intros c Hc. apply in_seq in Hc.
  destruct (item_inrange flat (Z.of_nat (b + n * t + n * T * c)))
    as (v & E & _); [|eauto].
  unfold len. rewrite H. split; [lia|]. apply inj_lt.
  assert (b + n * t + n * T * c < n * T + n * T * c)%nat by nia.
  nia.
Qed.

Lemma unravel_F3_size {A : Type} (flat : list A) (n T C : nat) :
  length flat <> (n * T * C)%nat ->
  Nd.unravel_F3 flat n T C = Raise ValueError.
Proof.
  intros H. unfold Nd.unravel_F3.
  replace (Nat.eqb (length flat) (n * T * C)) with false; [reflexivity|].
  symmetry. apply Nat.eqb_neq. exact H.
Qed.

Lemma rect_firstn {A : Type} (m k : nat) (rows : list (list A)) :
  rect m rows -> rect (Nat.min k m) (map (firstn k) rows).
Proof.
  unfold rect. intros H. apply Forall_map. eapply Forall_impl; [|exact H].
  intros r Hr. simpl. rewrite length_firstn, Hr. reflexivity.
Qed.

Lemma rect_skipn {A : Type} (m k : nat) (rows : list (list A)) :
  rect m rows -> rect (m - k) (map (skipn k) rows).
Proof.
  unfold rect. intros H. apply Forall_map. eapply Forall_impl; [|exact H].
  intros r Hr. simpl. rewrite length_skipn, Hr. reflexivity.
Qed.

Lemma rect_columns {A : Type} (m : nat) (rows : list (list A)) :
  rows <> [] -> rect m rows -> Nd.columns rows = m.
Proof.
  intros Hne H. destruct rows as [|r rows]; [contradiction|].
  inversion H; subst. reflexivity.
Qed.

Lemma map_nonempty {A B : Type} (f : A -> B) (l : list A) :
  l <> [] -> map f l <> [].
Proof. destruct l; [contradiction | discriminate]. Qed.

Lemma buildDataSet_flat_lengths {A : Type} (rows : list (list A)) (m : nat) :
  rows <> [] -> rect m rows ->
  length (Nd.ravel_F (Nd.columns (map (firstn 1200) rows))
            (map (firstn 1200) rows)) = (length rows * Nat.min 1200 m)%nat /\
  length (Nd.ravel_F (Nd.columns (map (skipn 1200) rows))
            (map (skipn 1200) rows)) = (length rows * (m - 1200))%nat.
Proof.
  intros Hne Hrect.
  pose proof (rect_firstn m 1200 rows Hrect) as Rp.
  pose proof (rect_skipn m 1200 rows Hrect) as Rt.
  split.
  - rewrite (rect_columns _ _ (map_nonempty _ _ Hne) Rp).
    rewrite (ravel_F_length _ _ Rp), length_map. reflexivity.
  - rewrite (rect_columns _ _ (map_nonempty _ _ Hne) Rt).
    rewrite (ravel_F_length _ _ Rt), length_map. reflexivity.
Qed.

Lemma buildDataSet_wrong_length {A : Type} (rows : list (list A)) (m : nat) :
  rows <> [] -> rect m rows -> m <> 1400%nat ->
  buildDataSet (Arr2 rows) = Raise ValueError.
Proof.
  intros Hne Hrect Hm.
  destruct (buildDataSet_flat_lengths rows m Hne Hrect) as [Lp Lt].
  assert (Hn : (0 < length rows)%nat)
    by (destruct rows; [contradiction | simpl; lia]).
  unfold buildDataSet.
  destruct (Nat.eq_dec (Nat.min 1200 m) 1200) as [E|E].
  - assert (Sp : length (Nd.ravel_F (Nd.columns (map (firstn 1200) rows))
                           (map (firstn 1200) rows)) =
                 (length rows * 200 * 6)%nat) by (rewrite Lp, E; lia).
    destruct (unravel_F3_total _ (length rows) 200 6 Sp) as [x Ex].
    rewrite Ex. cbn [bind]. rewrite unravel_F3_size; [reflexivity|].
    rewrite Lt. nia.
  - rewrite unravel_F3_size; [reflexivity|]. rewrite Lp. nia.
Qed.

(** X10. On a stack of at least one window, [buildDataSet] returns exactly
    when every row has 1400 entries: it then gives predictors of shape
    (rows, 200, 6) and targets of shape (rows, 200, 1); with any other row
    length one of the two reshapes raises ValueError. *)
Theorem buildDataSet_row_length :
  forall (A : Type) (rows : list (list A)) (m : nat),
    rows <> [] -> rect m rows ->
    (m = 1400%nat ->
     exists x_val y_val,
       buildDataSet (Arr2 rows) = Ok (x_val, y_val) /\
       length x_val = length rows /\
       Forall (fun xb => length xb = 200%nat /\
                         Forall (fun xt => length xt = 6%nat) xb) x_val /\
       length y_val = length rows /\
       Forall (fun yb => length yb = 200%nat /\
                         Forall (fun yt => length yt = 1%nat) yb) y_val) /\
    (m <> 1400%nat -> buildDataSet (Arr2 rows) = Raise ValueError).
Proof.
  intros A rows m Hne Hrect.
  split; [| apply buildDataSet_wrong_length; assumption].
  intros ->.
  destruct (buildDataSet_flat_lengths rows 1400 Hne Hrect) as [Lp Lt].
  replace (Nat.min 1200 1400) with 1200%nat in Lp by lia.
  replace (1400 - 1200)%nat with 200%nat in Lt by lia.
  assert (Sp : length (Nd.ravel_F (Nd.columns (map (firstn 1200) rows))
                         (map (firstn 1200) rows)) =
               (length rows * 200 * 6)%nat) by (rewrite Lp; lia).
  assert (St : length (Nd.ravel_F (Nd.columns (map (skipn 1200) rows))
                         (map (skipn 1200) rows)) =
               (length rows * 200 * 1)%nat) by (rewrite Lt; lia).
  unfold buildDataSet.
  destruct (unravel_F3_total _ (length rows) 200 6 Sp) as [x Ex].
  destruct (unravel_F3_total _ (length rows) 200 1 St) as [y Ey].
  rewrite Ex, Ey. cbn [bind]. exists x, y.
  apply unravel_F3_shape in Ex as (_ & Lx & Sx).
  apply unravel_F3_shape in Ey as (_ & Ly & Sy).
  repeat split; assumption.
Qed.

Lemma buildDataSet_row_length_witness :
  [repeat 0 1400] <> [] /\ rect 1400 [repeat 0 1400] /\
  exists x_val y_val,
    buildDataSet (Arr2 [repeat 0 1400]) = Ok (x_val, y_val) /\
    length x_val = length [repeat 0 1400] /\
    Forall (fun xb => length xb = 200%nat /\
                      Forall (fun xt => length xt = 6%nat) xb) x_val /\
    length y_val = length [repeat 0 1400] /\
    Forall (fun yb => length yb = 200%nat /\
                      Forall (fun yt => length yt = 1%nat) yb) y_val.
Proof.
  assert (H1 : [repeat 0 1400] <> []) by discriminate.
  assert (H2 : rect 1400 [repeat 0 1400])
    by (repeat constructor; apply repeat_length).
  split; [exact H1|]. split; [exact H2|].
  exact (proj1 (buildDataSet_row_length Z [repeat 0 1400] 1400%nat H1 H2)
           eq_refl).
Defined.

(** X11. Where [buildDataSet] returns on a stack of windows, the reshape in
    Fortran order keeps the channels apart: predictor [(b, t, c)] is entry
    [t + 200*c] of row [b] (channel [c] is the c-th block of 200 values of
    the row), and target [(b, t, 0)] is entry [1200 + t] of row [b]. *)
Theorem buildDataSet_entries :
  forall (A : Type) (rows : list (list A)) (m : nat) x_val y_val,
    rect m rows ->
    buildDataSet (Arr2 rows) = Ok (x_val, y_val) ->
    forall b row t,
      nth_error rows b = Some row -> (t < 200)%nat ->
      (forall c, (c < 6)%nat ->
                 at3 x_val b t c = nth_error row (t + 200 * c) /\
                 at3 x_val b t c <> None) /\
      at3 y_val b t 0 = nth_error row (1200 + t) /\
      at3 y_val b t 0 <> None.
Proof.
  intros A rows m x y Hrect H b row t Eb Ht.
  assert (Hb : (b < length rows)%nat) by (apply nth_error_Some; congruence).
  assert (Hne : rows <> []) by (intros ->; simpl in Hb; lia).
  pose proof (rect_firstn m 1200 rows Hrect) as Rp.
  pose proof (rect_skipn m 1200 rows Hrect) as Rt.
  unfold buildDataSet in H. inv_bind H. inv_bind H. injection H as <- <-.
  rewrite (rect_columns _ _ (map_nonempty _ _ Hne) Rp) in E.
  rewrite (rect_columns _ _ (map_nonempty _ _ Hne) Rt) in E0.
  pose proof (unravel_F3_shape _ _ _ _ _ E) as (Sx & _).
  pose proof (unravel_F3_shape _ _ _ _ _ E0) as (Sy & _).
  rewrite (ravel_F_length _ _ Rp), length_map in Sx.
  rewrite (ravel_F_length _ _ Rt), length_map in Sy.
  assert (Kp : Nat.min 1200 m = 1200%nat) by nia.
  assert (Kt : (m - 1200 = 200)%nat) by nia.
  rewrite Kp in *. rewrite Kt in *.
  split.
  - intros c Hc.
    destruct (unravel_F3_at _ _ _ _ _ b t c E Hb Ht Hc) as [Hx Hs].
    split; [|exact Hs]. rewrite Hx.
    replace (b + length rows * t + length rows * 200 * c)%nat
      with (b + length (map (firstn 1200) rows) * (t + 200 * c))%nat
      by (rewrite length_map; nia).
    rewrite (ravel_F_nth 1200 _ b (t + 200 * c) (firstn 1200 row) Rp);
      [| rewrite nth_error_map, Eb; reflexivity | lia].
    rewrite nth_error_firstn.
    replace (Nat.ltb (t + 200 * c) 1200) with true; [reflexivity|].
    symmetry. apply Nat.ltb_lt. lia.
  - destruct (unravel_F3_at _ _ _ _ _ b t 0 E0 Hb Ht ltac:(lia)) as [Hy Hs].
    split; [|exact Hs]. rewrite Hy.
    replace (b + length rows * t + length rows * 200 * 0)%nat
      with (b + length (map (skipn 1200) rows) * t)%nat
      by (rewrite length_map; nia).
    rewrite (ravel_F_nth 200 _ b t (skipn 1200 row) Rt);
      [| rewrite nth_error_map, Eb; reflexivity | lia].
    apply nth_error_skipn.
Qed.

(** X12. A single window handed over as a one-dimensional array is treated as
    a stack of that one window; so it must hold exactly 1400 values, and any
    other length raises ValueError. *)
Theorem buildDataSet_single_window :
  forall (A : Type) (values : list A),
    buildDataSet (Arr1 values) = buildDataSet (Arr2 [values]) /\
    (length values <> 1400%nat ->
     buildDataSet (Arr1 values) = Raise ValueError).
Proof.
  intros A values.
  assert (E : buildDataSet (Arr1 values) = buildDataSet (Arr2 [values])).
  { unfold buildDataSet. cbn [map Nd.columns length].
    rewrite !ravel_F_row. reflexivity. }
  split; [exact E|]. intros Hlen. rewrite E.
  apply (buildDataSet_wrong_length [values] (length values));
    [discriminate | repeat constructor | exact Hlen].
Qed.

Lemma buildDataSet_single_window_witness :
  length (repeat 0 7) <> 1400%nat /\
  buildDataSet (Arr1 (repeat 0 7)) = Raise ValueError.
Proof.
  assert (H : length (repeat 0 7) <> 1400%nat) by (simpl; lia).
  split; [exact H|].
  exact (proj2 (buildDataSet_single_window Z (repeat 0 7)) H).
Defined.

Lemma buildDataSet_entries_witness :
  rect 1400 [map Z.of_nat (seq 0 1400)] /\
  exists x_val y_val,
    buildDataSet (Arr2 [map Z.of_nat (seq 0 1400)]) = Ok (x_val, y_val) /\
    nth_error [map Z.of_nat (seq 0 1400)] 0 = Some (map Z.of_nat (seq 0 1400)) /\
    (3 < 200)%nat /\
    (forall c, (c < 6)%nat ->
               at3 x_val 0 3 c =
                 nth_error (map Z.of_nat (seq 0 1400)) (3 + 200 * c) /\
               at3 x_val 0 3 c <> None) /\
    at3 y_val 0 3 0 = nth_error (map Z.of_nat (seq 0 1400)) (1200 + 3) /\
    at3 y_val 0 3 0 <> None.
Proof.
  assert (H1 : rect 1400 [map Z.of_nat (seq 0 1400)])
    by (repeat constructor; rewrite length_map; apply length_seq).
  split; [exact H1|].
  destruct (buildDataSet (Arr2 [map Z.of_nat (seq 0 1400)]))
    as [[x y]|e] eqn:E; [|vm_compute in E; discriminate].
  exists x, y. split; [reflexivity|]. split; [reflexivity|].
  split; [lia|].
  exact (buildDataSet_entries Z [map Z.of_nat (seq 0 1400)] 1400%nat x y H1 E
           0%nat (map Z.of_nat (seq 0 1400)) 3%nat eq_refl ltac:(lia)).
Defined.

(** ** Conversion of the loaded structs *)

Lemma dict_get_set {V : Type} (dict : list (String.string * V)) key v key' :
  dict_get (dict_set dict key v) key' =
    if String.eqb key key' then Some v else dict_get dict key'.
Proof.
  induction dict as [|[k w] r IH]; simpl.
  - reflexivity.
  - destruct (String.eqb k key) eqn:E; simpl.
    + apply String.eqb_eq in E. subst k.
      destruct (String.eqb key key'); reflexivity.
    + rewrite IH. destruct (String.eqb k key') eqn:E'; [|reflexivity].
      apply String.eqb_eq in E'. rewrite E' in E.
      rewrite String.eqb_sym, E. reflexivity.
Qed.

Lemma dict_set_keys {V : Type} (dict : list (String.string * V)) key v :
  dict_get dict key <> None ->
  map fst (dict_set dict key v) = map fst dict.
Proof.
  induction dict as [|[k w] r IH]; simpl; intros H.
  - contradiction.
  - destruct (String.eqb k key); simpl; [reflexivity|].
    rewrite IH; [reflexivity | exact H].
Qed.

Lemma dict_set_Forall {V : Type} (P : String.string * V -> Prop) dict key v :
  Forall P dict -> (forall k, P (k, v)) -> Forall P (dict_set dict key v).
Proof.
  intros H Hv. induction H as [|[k w] r Hk Hr IH]; simpl.
  - constructor; [apply Hv | constructor].
  - destruct (String.eqb k key); constructor; auto.
Qed.

Lemma mat_struct_induction (P : mat_struct -> Prop) :
  (forall fields,
      Forall (fun kv => forall s, snd kv = MObj s -> P s) fields ->
      P (Struct fields)) ->
  forall s, P s.
Proof.
  intros H. fix IH 1. intros [fields]. apply H.
  induction fields as [|[k v] r IHr]; constructor; [|exact IHr].
  destruct v as [z|items|s']; intros s E; try discriminate.
  injection E as <-. apply IH.
Qed.

Lemma todict_unfold (fields : list (String.string * matval)) :
  _todict (Struct fields) =
    fold_left (fun dict kv => dict_set dict (fst kv) (converted_value (snd kv)))
              fields [].
Proof.
  cbn [_todict]. generalize (@nil (String.string * pyval)) as dict.
  induction fields as [|[k v] r IH]; intros dict; [reflexivity|].
  cbn [fold_left fst snd]. rewrite <- IH. reflexivity.
Qed.

Lemma todict_lookup_from (name : String.string)
  (fields : list (String.string * matval)) :
  forall dict found,
    dict_get dict name = option_map converted_value found ->
    dict_get
      (fold_left (fun dict kv =>
                    dict_set dict (fst kv) (converted_value (snd kv)))
                 fields dict) name =
      option_map converted_value
        (fold_left (fun found kv =>
                      if String.eqb (fst kv) name then Some (snd kv) else found)
                   fields found).
Proof.
  induction fields as [|[k v] r IH]; intros dict found H; cbn [fold_left fst snd].
  - exact H.
  - apply IH. rewrite dict_get_set.
    destruct (String.eqb k name); [reflexivity | exact H].
Qed.

(** X13. The dict [_todict] builds answers every name with the converted
    attribute of that name, and has no other key: a nested struct has become
    a dict, anything else is stored as it is.  In particular an array is
    stored untouched, also when it holds structs: the function does not look
    inside arrays. *)
Theorem todict_lookup :
  forall (matobj : mat_struct) (name : String.string),
    dict_get (_todict matobj) name =
      option_map converted_value (attribute matobj name) /\
    (forall items,
        attribute matobj name = Some (MArray items) ->
        dict_get (_todict matobj) name = Some (PVal (MArray items))) /\
    (forall s,
        attribute matobj name = Some (MObj s) ->
        dict_get (_todict matobj) name = Some (PDict (_todict s))).
Proof.
  intros [fields] name.
  assert (H : dict_get (_todict (Struct fields)) name =
              option_map converted_value (attribute (Struct fields) name)).
  { rewrite todict_unfold. unfold attribute.
    apply todict_lookup_from. reflexivity. }
  split; [exact H|].
  split; intros x Hx; rewrite H, Hx; reflexivity.
Qed.

Lemma todict_entries_converted (matobj : mat_struct) :
  Forall (fun kv => converted (snd kv)) (_todict matobj).
Proof.
  induction matobj as [fields IH] using mat_struct_induction.
  rewrite todict_unfold.
  assert (G : forall dict,
             Forall (fun kv : String.string * pyval => converted (snd kv)) dict ->
             Forall (fun kv => converted (snd kv))
               (fold_left (fun dict kv =>
                             dict_set dict (fst kv) (converted_value (snd kv)))
                          fields dict)).
  { induction IH as [|[k v] r Hv Hr IHr]; intros dict Hd; cbn [fold_left fst snd].
    - exact Hd.
    - apply IHr. apply dict_set_Forall; [exact Hd|].
      intros k0. cbn [snd] in *.
      destruct v as [z|items|s]; cbn [converted_value].
      + constructor. discriminate.
      + constructor. discriminate.
      + constructor. apply Hv. reflexivity. }
  apply G. constructor.
Qed.

Lemma converted_value_converted (elem : matval) :
  converted (converted_value elem).
Proof.
  destruct elem as [z|items|s]; cbn [converted_value].
  - constructor. discriminate.
  - constructor. discriminate.
  - constructor. apply todict_entries_converted.
Qed.

(** What one iteration of [_check_keys] does to a value. *)
Lemma check_key_get (dict : list (String.string * pyval)) key name :
  dict_get (check_key dict key) name =
    if String.eqb key name
    then option_map (fun v => match v with
                              | PVal elem => converted_value elem
                              | PDict _ => v
                              end) (dict_get dict name)
    else dict_get dict name.
Proof.
  unfold check_key.
  destruct (String.eqb key name) eqn:E.
  - apply String.eqb_eq in E. subst name.
    destruct (dict_get dict key) as [[[z|items|s]|entries]|] eqn:G;
      cbn [option_map converted_value]; try exact G.
    rewrite dict_get_set, String.eqb_refl. reflexivity.
  - destruct (dict_get dict key) as [[[z|items|s]|entries]|] eqn:G;
      try reflexivity.
    rewrite dict_get_set, E. reflexivity.
Qed.

Lemma check_key_keys (dict : list (String.string * pyval)) key :
  map fst (check_key dict key) = map fst dict.
Proof.
  unfold check_key.
  destruct (dict_get dict key) as [[[z|items|s]|entries]|] eqn:G;
    try reflexivity.
  apply dict_set_keys. congruence.
Qed.

Lemma check_keys_fold_keys keys :
  forall dict : list (String.string * pyval),
    map fst (fold_left check_key keys dict) = map fst dict.
Proof.
  induction keys as [|k r IH]; intros dict; cbn [fold_left]; [reflexivity|].
  rewrite IH. apply check_key_keys.
Qed.

Lemma check_keys_fold_get keys name :
  forall dict : list (String.string * pyval),
    dict_get (fold_left check_key keys dict) name =
      if existsb (fun k => String.eqb k name) keys
      then option_map (fun v => match v with
                                | PVal elem => converted_value elem
                                | PDict _ => v
                                end) (dict_get dict name)
      else dict_get dict name.
Proof.
  induction keys as [|k r IH]; intros dict; cbn [fold_left existsb];
    [reflexivity|].
  rewrite IH, check_key_get.
  destruct (String.eqb k name); cbn [orb].
  - destruct (existsb (fun k0 => String.eqb k0 name) r); [|reflexivity].
    destruct (dict_get dict name) as [[[z|items|s]|entries]|]; reflexivity.
  - reflexivity.
Qed.

Lemma dict_get_keys {V : Type} (dict : list (String.string * V)) name :
  existsb (fun k => String.eqb k name) (map fst dict) = false ->
  dict_get dict name = None.
Proof.
  induction dict as [|[k w] r IH]; cbn [map fst existsb dict_get]; intros H;
    [reflexivity|].
  apply orb_false_iff in H as [H1 H2]. rewrite H1. apply IH, H2.
Qed.

Lemma dict_get_wrap (data : list (String.string * matval)) name :
  dict_get (map (fun kv => (fst kv, PVal (snd kv))) data) name =
    option_map PVal (dict_get data name).
Proof.
  induction data as [|[k v] r IH]; cbn [map fst snd dict_get]; [reflexivity|].
  destruct (String.eqb k name); [reflexivity | exact IH].
Qed.

(** X14. [load_mat_struct] answers with the converted entry of the file under
    [dataset_name], and fails with KeyError exactly when the file has no such
    variable; [_check_keys] keeps the keys of the dict and their order. *)
Theorem load_mat_struct_lookup :
  forall (data : list (String.string * matval)) (dataset_name : String.string),
    load_mat_struct data dataset_name =
      option_map converted_value (dict_get data dataset_name) /\
    (load_mat_struct data dataset_name = None <->
     dict_get data dataset_name = None) /\
    map fst (_check_keys (map (fun kv => (fst kv, PVal (snd kv))) data)) =
      map fst data.
Proof.
  intros data name.
  assert (H : load_mat_struct data name =
              option_map converted_value (dict_get data name)).
  { unfold load_mat_struct, _check_keys. rewrite check_keys_fold_get.
    destruct (existsb (fun k => String.eqb k name)
                (map fst (map (fun kv => (fst kv, PVal (snd kv))) data))) eqn:E.
    - rewrite dict_get_wrap. destruct (dict_get data name); reflexivity.
    - pose proof (dict_get_keys _ _ E) as N. rewrite N.
      rewrite dict_get_wrap in N.
      destruct (dict_get data name); [discriminate | reflexivity]. }
  split; [exact H|]. split.
  - rewrite H. destruct (dict_get data name); simpl; split; congruence.
  - unfold _check_keys. rewrite check_keys_fold_keys, map_map.
    apply map_ext. reflexivity.
Qed.

(** X15. Whatever [load_mat_struct] returns holds no [mat_struct] as a value
    of a dict, at any depth of nested dicts: each has been turned into a dict
    by [_todict], whose result is itself free of such values. *)
Theorem load_mat_struct_converted :
  forall (data : list (String.string * matval)) (dataset_name : String.string)
         (v : pyval),
    load_mat_struct data dataset_name = Some v ->
    converted v /\
    forall s, converted (PDict (_todict s)).
Proof.
  intros data name v H.
  split; [| intros s; constructor; apply todict_entries_converted].
  unfold load_mat_struct, _check_keys in H.
  rewrite check_keys_fold_get in H.
  rewrite dict_get_wrap in H.
  destruct (dict_get data name) as [elem|] eqn:G;
    [| destruct (existsb _ _); discriminate].
  destruct (existsb _ _) eqn:E; cbn [option_map] in H.
  - injection H as <-. apply converted_value_converted.
  - apply dict_get_keys in E. rewrite dict_get_wrap, G in E. discriminate.
Qed.

Lemma load_mat_struct_converted_witness :
  load_mat_struct
    [("__header__"%string, MLeaf 0);
     ("data"%string,
      MObj (Struct [("TimeMeasure1"%string,
                     MObj (Struct [("acc"%string, MArray [MLeaf 1; MLeaf 2])]))]))]
    "data"%string =
    Some (PDict [("TimeMeasure1"%string,
                  PDict [("acc"%string, PVal (MArray [MLeaf 1; MLeaf 2]))])]) /\
  converted (PDict [("TimeMeasure1"%string,
                     PDict [("acc"%string, PVal (MArray [MLeaf 1; MLeaf 2]))])]).
Proof.
  split; [reflexivity|].
  exact (proj1 (load_mat_struct_converted
                  [("__header__"%string, MLeaf 0);
                   ("data"%string,
                    MObj (Struct [("TimeMeasure1"%string,
                                   MObj (Struct [("acc"%string,
                                                  MArray [MLeaf 1; MLeaf 2])]))]))]
                  "data"%string _ eq_refl)).
Defined.

Lemma todict_lookup_witness :
  attribute (Struct [("fs"%string, MLeaf 100);
                     ("imu"%string, MArray [MObj (Struct [])]);
                     ("head"%string, MObj (Struct [("fs"%string, MLeaf 50)]))])
            "imu"%string = Some (MArray [MObj (Struct [])]) /\
  dict_get (_todict (Struct [("fs"%string, MLeaf 100);
                             ("imu"%string, MArray [MObj (Struct [])]);
                             ("head"%string,
                              MObj (Struct [("fs"%string, MLeaf 50)]))]))
           "imu"%string = Some (PVal (MArray [MObj (Struct [])])).
Proof.
  split; [reflexivity|].
  exact (proj1 (proj2 (todict_lookup
                         (Struct [("fs"%string, MLeaf 100);
                                  ("imu"%string, MArray [MObj (Struct [])]);
                                  ("head"%string,
                                   MObj (Struct [("fs"%string, MLeaf 50)]))])
                         "imu"%string)) _ eq_refl).
Defined.

Lemma load_mat_struct_lookup_witness :
  dict_get [("__header__"%string, MLeaf 0);
            ("data"%string, MObj (Struct [("fs"%string, MLeaf 100)]))]
           "Data"%string = None /\
  load_mat_struct [("__header__"%string, MLeaf 0);
                   ("data"%string, MObj (Struct [("fs"%string, MLeaf 100)]))]
                  "Data"%string = None.
Proof.
  split; [reflexivity|].
  exact (proj2 (proj1 (proj2 (load_mat_struct_lookup
                                [("__header__"%string, MLeaf 0);
                                 ("data"%string,
                                  MObj (Struct [("fs"%string, MLeaf 100)]))]
                                "Data"%string))) eq_refl).
Defined.
